(** * rmbg: the job queue and its HTTP handlers

    A shallow embedding of [api/internal/queue/redis_queue.go] and
    [api/internal/handlers/handlers.go].

    - Go strings are byte strings ([string]); [time.Time] is an instant in
      nanoseconds ([Z]) and [time.Duration] a number of nanoseconds.
    - The Redis server is a state that every command reads at the server's
      clock [now]; a command either answers or reports [redis.Nil].  Faults of
      the transport (time-outs, an unreachable server) and of the disk are not
      part of the commands; the module [faults] runs [AddJob] and
      [ProcessImage] with them.
    - A Go method [f(ctx, ...) (T, error)] becomes a computation in the monad
      [M]: the store is threaded through, also when an error is returned.
    - [encoding/json] is an interface ([JSON]); results that read a record
      back assume [JSONLaws], and [typed_json] is an instance of it.
      [JSONLaws] is what [encoding/json] does for a job whose strings are
      valid UTF-8 and whose times have a year from 0 to 9999; for other jobs
      [json.Marshal] replaces bytes or fails, which the results stated
      without [JSONLaws] allow for. *)

From Stdlib Require Import ZArith Ascii String List Lia.
From stdpp Require Import base option gmap strings list.

Open Scope Z_scope.
Open Scope string_scope.
Open Scope list_scope.

(** ** Errors and the store monad *)

Inductive error : Type :=
| redis_Nil                 (* redis.Nil: no such key, or an empty list *)
| errorString (msg : string).

Inductive result (A : Type) : Type :=
| Ok (a : A)
| Err (e : error).
Arguments Ok {A} a.
Arguments Err {A} e.

Definition M (S A : Type) : Type := S -> result A * S.

#[global] Instance M_ret {S} : MRet (M S) := fun A a s => (Ok a, s).
#[global] Instance M_bind {S} : MBind (M S) := fun A B k m s =>
  match m s with
  | (Ok a, s') => k a s'
  | (Err e, s') => (Err e, s')
  end.

(** A pure step that may fail, run inside [M]. *)
Definition lift {S A} (r : result A) : M S A := fun s => (r, s).

Definition Time := Z.
Definition Duration := Z.
Definition time_Nanosecond : Duration := 1.
Definition time_Second : Duration := 1000000000 * time_Nanosecond.
Definition time_Hour : Duration := 3600 * time_Second.

Module queue.

(** ** Data model *)

Definition JobStatus := string.
Definition StatusPending : JobStatus := "pending".
Definition StatusProcessing : JobStatus := "processing".
Definition StatusCompleted : JobStatus := "completed".
Definition StatusFailed : JobStatus := "failed".

Record Job : Type := mkJob {
  ID : string;
  Status : JobStatus;
  InputPath : string;
  OutputPath : string;
  Error : string;
  CreatedAt : Time;
  UpdatedAt : Time
}.

Definition set_Status (s : JobStatus) (j : Job) : Job :=
  mkJob (ID j) s (InputPath j) (OutputPath j) (Error j) (CreatedAt j) (UpdatedAt j).
Definition set_CreatedAt (t : Time) (j : Job) : Job :=
  mkJob (ID j) (Status j) (InputPath j) (OutputPath j) (Error j) t (UpdatedAt j).
Definition set_UpdatedAt (t : Time) (j : Job) : Job :=
  mkJob (ID j) (Status j) (InputPath j) (OutputPath j) (Error j) (CreatedAt j) t.

(** [json.Marshal] and [json.Unmarshal] at type [Job]; [V] is the type of the
    serialized document. *)
Class JSON (V : Type) : Type := {
  json_Marshal : Job -> result V;
  json_Unmarshal : V -> result Job
}.

(** A job can be serialized, and decoding the document gives the job back:
    the codec on jobs with valid UTF-8 strings and years from 0 to 9999. *)
Class JSONLaws (V : Type) `{JSON V} : Prop := {
  json_roundtrip : forall j : Job,
    exists v, json_Marshal j = Ok v /\ json_Unmarshal v = Ok j
}.

(** ** The Redis server *)

Record entry (V : Type) : Type := Entry {
  value : V;
  expire_at : option Time       (* [None]: the key never expires *)
}.
Arguments Entry {V} value expire_at.
Arguments value {V} e.
Arguments expire_at {V} e.

Record Redis (V : Type) : Type := mkRedis {
  keys : gmap string (entry V);         (* string values: SET / GET *)
  lists : gmap string (list string)     (* lists: LPUSH / RPOP, leftmost element first *)
}.
Arguments mkRedis {V} keys lists.
Arguments keys {V} r.
Arguments lists {V} r.

Definition empty_redis {V} : Redis V := mkRedis ∅ ∅.

Section Commands.
Context {V : Type}.

(** A key is gone once its time to live has elapsed. *)
Definition live (now : Time) (e : entry V) : bool :=
  match expire_at e with
  | None => true
  | Some t => bool_decide (now < t)
  end.

(** [SET key value] with an expiration; go-redis sends no expiry for a zero
    expiration. *)
Definition redis_Set (now : Time) (key : string) (v : V) (expiration : Duration)
  : M (Redis V) unit := fun db =>
  let e := Entry v (if decide (expiration = 0) then None else Some (now + expiration)) in
  (Ok tt, mkRedis (<[key := e]> (keys db)) (lists db)).

Definition redis_Get (now : Time) (key : string) : M (Redis V) V := fun db =>
  match keys db !! key with
  | Some e => if live now e then (Ok (value e), db) else (Err redis_Nil, db)
  | None => (Err redis_Nil, db)
  end.

(** [LPUSH]: the element becomes the leftmost one; answers the new length. *)
Definition redis_LPush (key : string) (x : string) : M (Redis V) Z := fun db =>
  let l := x :: default [] (lists db !! key) in
  (Ok (Z.of_nat (length l)), mkRedis (keys db) (<[key := l]> (lists db))).

(** [RPOP]: removes and answers the rightmost element; a list that becomes
    empty is removed from the key space. *)
Definition redis_RPop (key : string) : M (Redis V) string := fun db =>
  match lists db !! key with
  | Some l =>
      match last l with
      | Some x =>
          let lists' := match removelast l with
                        | [] => delete key (lists db)
                        | l' => <[key := l']> (lists db)
                        end in
          (Ok x, mkRedis (keys db) lists')
      | None => (Err redis_Nil, db)
      end
  | None => (Err redis_Nil, db)
  end.
End Commands.

(** ** RedisQueue *)

Definition jobKey (jobID : string) : string := "job:" +:+ jobID.
Definition queueKey : string := "pending_jobs".

Section RedisQueue.
Context {V : Type} `{JSON V}.

Definition AddJob (now : Time) (job : Job) : M (Redis V) Job :=
  (* Set current time *)
  let job := set_CreatedAt now job in
  let job := set_UpdatedAt (CreatedAt job) job in
  (* Default status is pending *)
  let job := if decide (Status job = "") then set_Status StatusPending job else job in
  jobJSON ← lift (json_Marshal job);
  _ ← redis_Set now (jobKey (ID job)) jobJSON (24 * time_Hour);
  (* Add to pending queue if status is pending *)
  _ ← (if decide (Status job = StatusPending)
       then _ ← redis_LPush queueKey (ID job); mret tt
       else mret tt);
  mret job.

Definition GetJob (now : Time) (jobID : string) : M (Redis V) (option Job) := fun db =>
  match redis_Get now (jobKey jobID) db with
  | (Err redis_Nil, db') => (Ok None, db')       (* Job not found *)
  | (Err e, db') => (Err e, db')
  | (Ok jobJSON, db') =>
      match json_Unmarshal jobJSON with
      | Err e => (Err e, db')
      | Ok job => (Ok (Some job), db')
      end
  end.

Definition UpdateJob (now : Time) (job : Job) : M (Redis V) Job :=
  let job := set_UpdatedAt now job in
  jobJSON ← lift (json_Marshal job);
  _ ← redis_Set now (jobKey (ID job)) jobJSON (24 * time_Hour);
  mret job.

Definition PopPendingJob (now : Time) : M (Redis V) (option Job) := fun db =>
  match redis_RPop queueKey db with
  | (Err redis_Nil, db') => (Ok None, db')       (* No pending jobs *)
  | (Err e, db') => (Err e, db')
  | (Ok jobID, db') => GetJob now jobID db'
  end.

(** The record is unknown to the store at time [now]: its key was never
    set, or the time to live of the key has elapsed. *)
Definition unknown (now : Time) (jobID : string) (db : Redis V) : Prop :=
  match keys db !! jobKey jobID with
  | None => True
  | Some e => live now e = false
  end.

(** The job as [AddJob] serializes it: stamped, with the default status. *)
Definition added (now : Time) (job : Job) : Job :=
  let job := set_UpdatedAt now (set_CreatedAt now job) in
  if decide (Status job = "") then set_Status StatusPending job else job.

(** The pending queue as Redis holds it, and oldest first. *)
Definition pending (db : Redis V) : list string := default [] (lists db !! queueKey).
Definition queue_order (db : Redis V) : list string := rev (pending db).
End RedisQueue.

End queue.

(** ** A codec instance: the document as a typed JSON object

    The fields follow the struct tags of [Job]: [output_path] and [error] are
    [omitempty], so they are absent from the document when empty, and decode
    to the empty string when absent.  Strings and times are kept as they are:
    the document stands for the JSON text of a job with valid UTF-8 strings
    and years from 0 to 9999. *)

Record document : Type := mkDocument {
  doc_id : string;
  doc_status : string;
  doc_input_path : string;
  doc_output_path : option string;
  doc_error : option string;
  doc_created_at : Time;
  doc_updated_at : Time
}.

Definition omitempty (s : string) : option string :=
  if decide (s = "") then None else Some s.

#[global] Instance typed_json : queue.JSON document := {|
  queue.json_Marshal j :=
    Ok (mkDocument (queue.ID j) (queue.Status j) (queue.InputPath j)
          (omitempty (queue.OutputPath j)) (omitempty (queue.Error j))
          (queue.CreatedAt j) (queue.UpdatedAt j));
  queue.json_Unmarshal d :=
    Ok (queue.mkJob (doc_id d) (doc_status d) (doc_input_path d)
          (default "" (doc_output_path d)) (default "" (doc_error d))
          (doc_created_at d) (doc_updated_at d))
|}.

Module handlers.
Import queue.

(** ** The request, the response and the file system *)

Definition http_StatusOK : Z := 200.
Definition http_StatusAccepted : Z := 202.
Definition http_StatusBadRequest : Z := 400.
Definition http_StatusNotFound : Z := 404.
Definition http_StatusInternalServerError : Z := 500.

Record FileHeader : Type := mkFileHeader {
  Filename : string;
  Content : string
}.

(** What a handler reads from [*gin.Context]. *)
Record gin_Context : Type := mkContext {
  form_files : gmap string FileHeader;     (* multipart form *)
  query_params : gmap string string;       (* URL query *)
  path_params : gmap string string         (* route parameters *)
}.

Definition c_FormFile (name : string) (c : gin_Context) : result FileHeader :=
  match form_files c !! name with
  | Some file => Ok file
  | None => Err (errorString "http: no such file")
  end.
Definition c_Query (key : string) (c : gin_Context) : string :=
  default "" (query_params c !! key).
Definition c_Param (key : string) (c : gin_Context) : string :=
  default "" (path_params c !! key).

(** [gin.H] with the values the handlers put in it, all strings. *)
Abbreviation gin_H := (gmap string string).

(** What a handler writes: [c.JSON(code, obj)] or [c.File(filepath)]. *)
Inductive Response : Type :=
| c_JSON (code : Z) (obj : gin_H)
| c_File (filepath : string).




(** The files on disk: path to contents.  The disk holds regular files that
    can be read; a path that is not in the map does not exist. *)
Abbreviation FS := (gmap string string).

(** [os.Stat] succeeds on the paths that exist. *)
Definition os_Stat (name : string) (fs : FS) : result unit :=
  match fs !! name with
  | Some _ => Ok tt
  | None => Err (errorString "no such file or directory")
  end.

(** [strings.Contains] and [strings.HasSuffix]. *)
Fixpoint strings_Contains (s substr : string) : bool :=
  String.prefix substr s
  || match s with
     | EmptyString => false
     | String _ rest => strings_Contains rest substr
     end.

Definition strings_HasSuffix (s suffix : string) : bool :=
  bool_decide (String.length suffix <= String.length s)%nat
  && bool_decide (substring (String.length s - String.length suffix)
                    (String.length suffix) s = suffix).

(** [strings.FieldsFunc]: the maximal runs of characters that [f] rejects;
    [field] is the run read so far. *)
Fixpoint fields_from (f : ascii -> bool) (field s : string) : list string :=
  match s with
  | EmptyString => if decide (field = "") then [] else [field]
  | String r rest =>
      if f r then (if decide (field = "") then [] else [field]) ++ fields_from f "" rest
      else fields_from f (field +:+ String r "") rest
  end.
Definition strings_FieldsFunc (f : ascii -> bool) (s : string) : list string :=
  fields_from f "" s.

Definition backslash : ascii := ascii_of_nat 92.
Definition isSlashRune (r : ascii) : bool :=
  bool_decide (r = "/"%char \/ r = backslash).

(** net/http: whether one of the elements of the path is "..". *)
Definition containsDotDot (v : string) : bool :=
  if negb (strings_Contains v "..") then false
  else existsb (fun ent => bool_decide (ent = "..")) (strings_FieldsFunc isSlashRune v).

Definition indexPage : string := "/index.html".



(** [c.SaveUploadedFile] writes the upload to [dst]; here the disk does not
    fail, in [faults] it may. *)
Definition c_SaveUploadedFile (file : FileHeader) (dst : string) : M FS unit := fun fs =>
  (Ok tt, <[dst := Content file]> fs).

(** Library functions taken as they are. *)
Class GoLib : Type := {
  filepath_Ext : string -> string;
  filepath_Join : string -> string -> string;
  time_Format : Time -> string -> string
}.
(** An instance to run the handlers with: every upload is a PNG, paths are
    joined with a slash, and a time prints as the layout. *)
#[global] Instance plain_lib : GoLib := {|
  filepath_Ext := fun _ => ".png";
  filepath_Join := fun dir file => dir +:+ "/" +:+ file;
  time_Format := fun _ layout => layout
|}.
Definition time_RFC3339 : string := "2006-01-02T15:04:05Z07:00".

(** The zero [time.Time], January 1, year 1, 00:00 UTC. *)
Definition zero_Time : Time := -62135596800 * time_Second.

Definition hextable : string := "0123456789abcdef".
Definition hexdigit (n : N) : ascii :=
  default "0"%char (String.get (N.to_nat n) hextable).
Fixpoint hex_EncodeToString (src : list Byte.byte) : string :=
  match src with
  | [] => ""
  | b :: rest =>
      String (hexdigit (Byte.to_N b / 16)%N)
        (String (hexdigit (Byte.to_N b mod 16)%N) (hex_EncodeToString rest))
  end.

(** [rnd] is what [rand.Read] leaves in the buffer of 8 bytes, or its error. *)
Definition generateID (rnd : result (list Byte.byte)) : result string :=
  match rnd with
  | Err e => Err e
  | Ok b => Ok (hex_EncodeToString b)
  end.

(** ** The handlers *)

Record Handler : Type := mkHandler {
  uploadDir : string;
  resultsDir : string
}.

(** The job queue behind the handler and the disk. *)
Record World (V : Type) : Type := mkWorld {
  jobQueue : Redis V;
  disk : FS
}.
Arguments mkWorld {V} jobQueue disk.
Arguments jobQueue {V} w.
Arguments disk {V} w.

Section Handlers.
Context {V : Type} `{JSON V} `{GoLib}.

Definition ProcessImage (h : Handler) (now : Time) (rnd : result (list Byte.byte))
    (c : gin_Context) (w : World V) : Response * World V :=
  match c_FormFile "image" c with
  | Err _ => (c_JSON http_StatusBadRequest {[ "error" := "No image provided" ]}, w)
  | Ok file =>
  match generateID rnd with
  | Err _ =>
      (c_JSON http_StatusInternalServerError {[ "error" := "Failed to generate job ID" ]}, w)
  | Ok jobID =>
  let filename := jobID +:+ filepath_Ext (Filename file) in
  let uploadPath := filepath_Join (uploadDir h) filename in
  match c_SaveUploadedFile file uploadPath (disk w) with
  | (Err _, fs) =>
      (c_JSON http_StatusInternalServerError
         {[ "error" := "Failed to save the uploaded file" ]}, mkWorld (jobQueue w) fs)
  | (Ok _, fs) =>
  let job := mkJob jobID StatusPending uploadPath "" "" zero_Time zero_Time in
  match AddJob now job (jobQueue w) with
  | (Err _, db) =>
      (c_JSON http_StatusInternalServerError
         {[ "error" := "Failed to add job to queue" ]}, mkWorld db fs)
  | (Ok job, db) =>
      (c_JSON http_StatusAccepted
         (<["status" := Status job]> {[ "job_id" := jobID ]}), mkWorld db fs)
  end end end end.

Definition GetResult (h : Handler) (now : Time) (c : gin_Context) (w : World V)
    : Response * World V :=
  let jobID := c_Query "id" c in
  if decide (jobID = "") then
    (c_JSON http_StatusBadRequest {[ "error" := "Job ID is required" ]}, w)
  else
  match GetJob now jobID (jobQueue w) with
  | (Err _, db) =>
      (c_JSON http_StatusInternalServerError {[ "error" := "Failed to retrieve job" ]},
       mkWorld db (disk w))
  | (Ok None, db) =>
      (c_JSON http_StatusNotFound {[ "error" := "Job not found" ]}, mkWorld db (disk w))
  | (Ok (Some job), db) =>
      let result : gin_H := <["status" := Status job]> {[ "job_id" := ID job ]} in
      let result :=
        if decide (Status job = StatusCompleted) then
          match os_Stat (OutputPath job) (disk w) with
          | Ok _ =>
              <["completed_at" := time_Format (UpdatedAt job) time_RFC3339]>
                (<["result_url" := "/api/download/" +:+ ID job]> result)
          | Err _ => <["error" := "Result file not found"]> result
          end
        else if decide (Status job = StatusFailed) then
          <["error" := Error job]> result
        else if decide (Status job = StatusProcessing) then
          <["started_at" := time_Format (UpdatedAt job) time_RFC3339]> result
        else result in
      (c_JSON http_StatusOK result, mkWorld db (disk w))
  end.

Definition DownloadResult (h : Handler) (now : Time) (c : gin_Context) (w : World V)
    : Response * World V :=
  let jobID := c_Param "id" c in
  if decide (jobID = "") then
    (c_JSON http_StatusBadRequest {[ "error" := "Job ID is required" ]}, w)
  else
  match GetJob now jobID (jobQueue w) with
  | (Err _, db) =>
      (c_JSON http_StatusInternalServerError {[ "error" := "Failed to retrieve job" ]},
       mkWorld db (disk w))
  | (Ok job, db) =>
      let notAvailable : Response :=
        c_JSON http_StatusNotFound {[ "error" := "Result not available" ]} in
      match job with
      | None => (notAvailable, mkWorld db (disk w))
      | Some job =>
          if decide (Status job <> StatusCompleted \/ OutputPath job = "") then
            (notAvailable, mkWorld db (disk w))
          else
            (c_File (OutputPath job), mkWorld db (disk w))
      end
  end.
End Handlers.

End handlers.

(** ** Histories of queue operations *)

Module history.
Import queue.

Inductive op : Type :=
| OpAddJob (job : Job)
| OpUpdateJob (job : Job)
| OpPopPendingJob
| OpGetJob (jobID : string).

(** The job ID whose record the operation writes, if it writes one. *)
Definition written (o : op) : option string :=
  match o with
  | OpAddJob job | OpUpdateJob job => Some (ID job)
  | OpPopPendingJob | OpGetJob _ => None
  end.

Section History.
Context {V : Type} `{JSON V}.

Definition exec (now : Time) (o : op) : M (Redis V) unit :=
  match o with
  | OpAddJob job => _ ← AddJob now job; mret tt
  | OpUpdateJob job => _ ← UpdateJob now job; mret tt
  | OpPopPendingJob => _ ← PopPendingJob now; mret tt
  | OpGetJob jobID => _ ← GetJob now jobID; mret tt
  end.

(** Operations run one after the other, each at its own time; an operation
    that fails leaves the store as it left it. *)
Definition run (tr : list (Time * op)) (db : Redis V) : Redis V :=
  fold_left (fun db '(now, o) => snd (exec now o db)) tr db.

Definition reachable (db : Redis V) : Prop :=
  exists tr, db = run tr empty_redis.

(** The record kept for [jobID] at time [now] is a pending job of that ID. *)
Definition pending_record (now : Time) (jobID : string) (db : Redis V) : Prop :=
  exists job, GetJob now jobID db = (Ok (Some job), db)
              /\ ID job = jobID /\ Status job = StatusPending.

(** Every ID in the pending queue is the ID of a stored record whose status
    is pending. *)
Definition queued_pending (db : Redis V) : Prop :=
  forall jobID, jobID ∈ pending db ->
    exists e job, keys db !! jobKey jobID = Some e
      /\ json_Unmarshal (value e) = Ok job
      /\ ID job = jobID /\ Status job = StatusPending.

(** The discipline of producer and workers: a record is not rewritten with
    another status than pending while its ID waits in the queue. *)
Definition allowed (o : op) (db : Redis V) : Prop :=
  match o with
  | OpAddJob job =>
      Status job = "" \/ Status job = StatusPending \/ ID job ∉ pending db
  | OpUpdateJob job => Status job = StatusPending \/ ID job ∉ pending db
  | OpPopPendingJob | OpGetJob _ => True
  end.

Inductive disciplined : Redis V -> Prop :=
| disciplined_empty : disciplined empty_redis
| disciplined_step now o db :
    disciplined db -> allowed o db -> disciplined (snd (exec now o db)).
End History.

End history.

(** ** Concurrent workers

    Every Redis command is atomic on the server; a worker's call of
    [PopPendingJob] is two commands, RPOP and then GET, and the commands of
    different workers interleave in any order. *)

Module pool.
Import queue.

Inductive pc : Type :=
| Idle                          (* between two calls of PopPendingJob *)
| Popped (jobID : string).      (* RPOP answered jobID, GetJob not yet run *)

Record worker : Type := mkWorker {
  at_pc : pc;
  returned : list (result (option Job))   (* what its calls returned, latest first *)
}.

Definition fresh_worker : worker := mkWorker Idle [].



Record config (V : Type) : Type := mkConfig {
  store : Redis V;
  workers : list worker
}.
Arguments mkConfig {V} store workers.
Arguments store {V} c.
Arguments workers {V} c.

Section Pool.
Context {V : Type} `{JSON V}.

(** The next command of a worker inside [PopPendingJob]. *)
Definition step (now : Time) (wk : worker) (db : Redis V) : worker * Redis V :=
  match at_pc wk with
  | Idle =>
      match redis_RPop queueKey db with
      | (Err redis_Nil, db') => (mkWorker Idle (Ok None :: returned wk), db')
      | (Err e, db') => (mkWorker Idle (Err e :: returned wk), db')
      | (Ok jobID, db') => (mkWorker (Popped jobID) (returned wk), db')
      end
  | Popped jobID =>
      let '(r, db') := GetJob now jobID db in
      (mkWorker Idle (r :: returned wk), db')
  end.

(** Worker [i] runs its next command at time [now]. *)
Definition sched_step (cfg : config V) (s : Time * nat) : config V :=
  let '(now, i) := s in
  match workers cfg !! i with
  | None => cfg
  | Some wk =>
      let '(wk', db') := step now wk (store cfg) in
      mkConfig db' (<[i := wk']> (workers cfg))
  end.

Definition run_schedule (sch : list (Time * nat)) (cfg : config V) : config V :=
  fold_left sched_step sch cfg.

Definition start (n : nat) (db : Redis V) : config V :=
  mkConfig db (replicate n fresh_worker).




End Pool.

End pool.

(** ** Sample requests and jobs *)

Module sample.
Import queue handlers history pool.

Definition day : Duration := 24 * time_Hour.

Definition job_a : Job := mkJob "a" StatusPending "uploads/a.png" "" "" zero_Time zero_Time.
Definition job_b : Job := mkJob "b" StatusPending "uploads/b.png" "" "" zero_Time zero_Time.

(** What a worker writes once it has taken job "a", 23 hours after its
    creation at time 0. *)
Definition job_a_processing : Job := set_Status StatusProcessing (added 0 job_a).
Definition job_a_failed : Job :=
  mkJob "a" StatusFailed "uploads/a.png" "" "decode error" 0 0.
Definition job_a_completed : Job :=
  mkJob "a" StatusCompleted "uploads/a.png" "results/a.png" "" 0 0.

(** Stores over the typed documents. *)
Definition db_a : Redis document := snd (AddJob 0 job_a empty_redis).
Definition db_a_updated : Redis document :=
  snd (UpdateJob (23 * time_Hour) job_a_processing db_a).
Definition db_ab : Redis document := snd (AddJob (12 * time_Hour) job_b db_a).
Definition db_failed : Redis document := snd (UpdateJob time_Hour job_a_failed db_a).
Definition db_completed : Redis document := snd (UpdateJob time_Hour job_a_completed db_a).

Definition h0 : Handler := mkHandler "uploads" "results".
Definition query_a : gin_Context := mkContext ∅ {[ "id" := "a" ]} ∅.
Definition download_a : gin_Context := mkContext ∅ ∅ {[ "id" := "a" ]}.
Definition upload : gin_Context :=
  mkContext {[ "image" := mkFileHeader "cat.png" "PNG" ]} ∅ ∅.
Definition entropy : list Byte.byte :=
  [Byte.x00; Byte.x01; Byte.x02; Byte.x03; Byte.xfc; Byte.xfd; Byte.xfe; Byte.xff].



End sample.

(** ** Reading hexadecimal digits back *)

Module hexdigits.
Import handlers.

(** The position of a character in [hextable]. *)
Fixpoint index_of (c : ascii) (table : string) : option N :=
  match table with
  | EmptyString => None
  | String c' rest => if decide (c = c') then Some 0%N else N.succ <$> index_of c rest
  end.

(** The byte two hexadecimal digits stand for. *)
Definition byte_of_digits (hi lo : ascii) : option Byte.byte :=
  match index_of hi hextable, index_of lo hextable with
  | Some h, Some l => Byte.of_N (16 * h + l)
  | _, _ => None
  end.

Definition is_hex_digit (c : ascii) : Prop := is_Some (index_of c hextable).

Definition hex_digits_only (s : string) : Prop :=
  Forall is_hex_digit (list_ascii_of_string s).

End hexdigits.

(** ** Listing the pending jobs *)

Module listing.
Import queue.

Section Listing.
Context {V : Type} `{JSON V}.

(** [LRANGE key start stop], both ends inclusive, negative indices counted
    from the right end. *)
Definition redis_LRange (key : string) (start stop : Z) : M (Redis V) (list string) :=
  fun db =>
  let l := default [] (lists db !! key) in
  let llen := Z.of_nat (length l) in
  let start := if decide (start < 0) then llen + start else start in
  let stop := if decide (stop < 0) then llen + stop else stop in
  let start := if decide (start < 0) then 0 else start in
  if decide (start > stop \/ start >= llen) then (Ok [], db)
  else
    let stop := if decide (stop >= llen) then llen - 1 else stop in
    (Ok (take (Z.to_nat (stop - start + 1)) (drop (Z.to_nat start) l)), db).

(** The loop of [GetPendingJobs] over the job IDs, [jobs] collected so far. *)
Fixpoint collect_jobs (now : Time) (jobIDs : list string) (jobs : list Job)
    : M (Redis V) (list Job) := fun db =>
  match jobIDs with
  | [] => (Ok jobs, db)
  | jobID :: rest =>
      match GetJob now jobID db with
      | (Err _, db') => collect_jobs now rest jobs db'      (* Skip jobs with errors *)
      | (Ok None, db') => collect_jobs now rest jobs db'
      | (Ok (Some job), db') => collect_jobs now rest (jobs ++ [job]) db'
      end
  end.

Definition GetPendingJobs (now : Time) : M (Redis V) (list Job) := fun db =>
  match redis_LRange queueKey 0 (-1) db with
  | (Err e, db') => (Err e, db')
  | (Ok jobIDs, db') => collect_jobs now jobIDs [] db'
  end.

(** The record of [jobID] as a listing shows it: nothing when it cannot be
    read. *)
Definition readable (now : Time) (db : Redis V) (jobID : string) : option Job :=
  match fst (GetJob now jobID db) with
  | Ok (Some job) => Some job
  | _ => None
  end.
End Listing.

End listing.

(** ** The routes of the API server *)

Module router.
Import queue handlers.

Inductive endpoint : Type :=
| h_ProcessImage
| h_GetResult.

(** [router.Group("/api")] with its POST and GET registrations. *)
Definition api_group : string := "/api".
Definition api_routes : list (string * string * endpoint) :=
  [("POST", api_group +:+ "/process", h_ProcessImage);
   ("GET", api_group +:+ "/result", h_GetResult)].

Fixpoint find_route (routes : list (string * string * endpoint)) (method path : string)
    : option endpoint :=
  match routes with
  | [] => None
  | (m, p, e) :: rest =>
      if decide (m = method /\ p = path) then Some e else find_route rest method path
  end.

(** The path without its last character when that is a slash. *)
Fixpoint strip_slash (path : string) : option string :=
  match path with
  | EmptyString => None
  | String c EmptyString => if decide (c = "/"%char) then Some "" else None
  | String c rest => String c <$> strip_slash rest
  end.

Inductive routing : Type :=
| Handled (e : endpoint)
| RedirectTrailingSlash (location : string)
| NoRoute.                     (* 404 page not found *)

(** gin's lookup with its defaults: an exact match of method and path, else
    a redirect when the path with its trailing slash added or removed is
    registered for the method. *)
Definition route (method path : string) : routing :=
  match find_route api_routes method path with
  | Some e => Handled e
  | None =>
      if decide (method = "CONNECT" \/ path = "/") then NoRoute
      else
        let other := match strip_slash path with
                     | Some p => p
                     | None => path +:+ "/"
                     end in
        match find_route api_routes method other with
        | Some _ => RedirectTrailingSlash other
        | None => NoRoute
        end
  end.

Section Serve.
Context {V : Type} `{JSON V} `{GoLib}.

(** The handler run for a request, if the router finds one. *)
Definition serve (h : Handler) (now : Time) (rnd : result (list Byte.byte))
    (method path : string) (c : gin_Context) (w : World V)
    : option (Response * World V) :=
  match route method path with
  | Handled h_ProcessImage => Some (ProcessImage h now rnd c w)
  | Handled h_GetResult => Some (GetResult h now c w)
  | RedirectTrailingSlash _ | NoRoute => None
  end.
End Serve.

End router.

(** ** The polling client (ImageProcessor.js) *)

Module frontend.
Import queue handlers.

(** Polling interval in ms *)
Definition POLLING_INTERVAL : Z := 2000.
Definition time_Millisecond : Duration := 1000000 * time_Nanosecond.

(** The state the component sets: [processingState], [progress], [jobId],
    [resultUrl] and [error] ([None] is null). *)
Record view : Type := mkView {
  processingState : string;
  progress : Z;
  jobId : option string;
  resultUrl : option string;
  errorText : option string
}.

Definition setProcessingState (x : string) (s : view) : view :=
  mkView x (progress s) (jobId s) (resultUrl s) (errorText s).
Definition setProgress (f : Z -> Z) (s : view) : view :=
  mkView (processingState s) (f (progress s)) (jobId s) (resultUrl s) (errorText s).
Definition setJobId (x : string) (s : view) : view :=
  mkView (processingState s) (progress s) (Some x) (resultUrl s) (errorText s).
Definition setResultUrl (x : string) (s : view) : view :=
  mkView (processingState s) (progress s) (jobId s) (Some x) (errorText s).
Definition setError (x : string) (s : view) : view :=
  mkView (processingState s) (progress s) (jobId s) (resultUrl s) (Some x).

(** What axios sees: an answer with its status code and JSON body, or no
    response at all. *)
Inductive http_outcome : Type :=
| Answer (code : Z) (data : gin_H)
| NoResponse.

(** axios resolves on the codes from 200 to 299 and rejects otherwise. *)
Definition resolved (code : Z) : Prop := 200 <= code < 300.

(** A field of the body as a condition: absent and empty are false. *)
Definition truthy (x : option string) : bool :=
  match x with
  | Some s => bool_decide (s <> "")
  | None => false
  end.

(** [x || d] on a field of the body. *)
Definition or_else (x : option string) (d : string) : string :=
  match x with
  | Some s => if decide (s = "") then d else s
  | None => d
  end.

(** One run of [poll]: the new state, and whether another poll is scheduled. *)
Definition poll (r : http_outcome) (s : view) : view * bool :=
  match r with
  | Answer code data =>
      if decide (resolved code) then
        let status : option string := data !! "status" in
        let result_url : option string := data !! "result_url" in
        let error : option string := data !! "error" in
        (* Update progress based on status *)
        let s := if decide (status = Some "processing")
                 then setProgress (fun prev => Z.min (prev + 10) 80) s else s in
        if bool_decide (status = Some "completed") && truthy result_url then
          (setResultUrl (default "" result_url)
             (setProgress (fun _ => 100) (setProcessingState "completed" s)), false)
        else if decide (status = Some "failed") then
          (setError (or_else error "Processing failed") (setProcessingState "error" s), false)
        else
          let s := if decide (status = Some "pending")
                   then setProgress (fun prev => Z.min prev 30) s else s in
          (s, true)
      else
        (setError (or_else (data !! "error") "Failed to get processing status")
           (setProcessingState "error" s), false)
  | NoResponse =>
      (setError "Failed to get processing status" (setProcessingState "error" s), false)
  end.

(** [handleProcess] for a chosen file, given the outcome of the POST: the new
    state, and the job ID to poll for when there is one. *)
Definition handleProcess (r : http_outcome) (s : view) : view * option string :=
  let s := setProgress (fun _ => 0) (setProcessingState "processing" s) in
  match r with
  | Answer code data =>
      if decide (resolved code) then
        if truthy (data !! "job_id") then
          (setJobId (default "" (data !! "job_id")) s, data !! "job_id")
        else
          (setError "Failed to process image" (setProcessingState "error" s), None)
      else
        (setError (or_else (data !! "error") "Failed to process image")
           (setProcessingState "error" s), None)
  | NoResponse =>
      (setError "Failed to process image" (setProcessingState "error" s), None)
  end.

(** The outcome axios reports for a handler's response; a file has no JSON
    fields. *)
Definition outcome_of (resp : Response) : http_outcome :=
  match resp with
  | c_JSON code obj => Answer code obj
  | c_File _ => Answer http_StatusOK ∅
  end.

(** GET /api/result?id=..., for an ID without URL metacharacters. *)
Definition result_request (currentJobId : string) : gin_Context :=
  mkContext ∅ {[ "id" := currentJobId ]} ∅.

Section Polling.
Context {V : Type} `{JSON V} `{GoLib}.

(** At most [n] polls against the server, one every [POLLING_INTERVAL], the
    first at time [now]; the flag tells whether polling goes on. *)
Fixpoint poll_loop (n : nat) (h : Handler) (now : Time) (currentJobId : string)
    (w : World V) (s : view) : view * bool * World V :=
  match n with
  | O => (s, true, w)
  | S n' =>
      let '(resp, w') := GetResult h now (result_request currentJobId) w in
      match poll (outcome_of resp) s with
      | (s', true) =>
          poll_loop n' h (now + POLLING_INTERVAL * time_Millisecond) currentJobId w' s'
      | (s', false) => (s', false, w')
      end
  end.
End Polling.

End frontend.

(** ** When a Redis command or the disk fails

    The commands above always answer.  Here a call runs under a plan that
    says which of the commands it sends fail, and how; under the plan without
    faults the calls are the ones above. *)

Module faults.
Import queue handlers.

(** A command that fails was not run by the server, or it was run and its
    answer did not reach the client. *)
Inductive fault : Type :=
| NotRun (e : error)
| AnswerLost (e : error).

(** The command [cmd] as the client sees it. *)
Definition send {S A : Type} (f : option fault) (cmd : M S A) : M S A := fun s =>
  match f with
  | None => cmd s
  | Some (NotRun e) => (Err e, s)
  | Some (AnswerLost e) => (Err e, snd (cmd s))
  end.

(** Whether the server ran the command, and whether the client got its
    answer. *)
Definition ran (f : option fault) : bool :=
  match f with
  | Some (NotRun _) => false
  | _ => true
  end.
Definition answered (f : option fault) : bool :=
  match f with
  | None => true
  | Some _ => false
  end.

(** How writing the upload fails: the destination cannot be created, or the
    copy stops after [written] bytes. *)
Inductive save_fault : Type :=
| CreateFails (e : error)
| CopyFails (e : error) (written : nat).

Record plan : Type := mkPlan {
  on_Save : option save_fault;     (* c.SaveUploadedFile *)
  on_Set : option fault;           (* SET of the record *)
  on_LPush : option fault          (* LPUSH of the job ID *)
}.
Definition no_fault : plan := mkPlan None None None.

Definition c_SaveUploadedFile_under (f : option save_fault) (file : FileHeader)
    (dst : string) : M FS unit := fun fs =>
  match f with
  | None => c_SaveUploadedFile file dst fs
  | Some (CreateFails e) => (Err e, fs)
  | Some (CopyFails e written) => (Err e, <[dst := substring 0 written (Content file)]> fs)
  end.

Section Faults.
Context {V : Type} `{JSON V} `{GoLib}.

(** [AddJob], each command sent under the plan. *)
Definition AddJob_under (p : plan) (now : Time) (job : Job) : M (Redis V) Job :=
  (* Set current time *)
  let job := set_CreatedAt now job in
  let job := set_UpdatedAt (CreatedAt job) job in
  (* Default status is pending *)
  let job := if decide (Status job = "") then set_Status StatusPending job else job in
  jobJSON ← lift (json_Marshal job);
  _ ← send (on_Set p) (redis_Set now (jobKey (ID job)) jobJSON (24 * time_Hour));
  (* Add to pending queue if status is pending *)
  _ ← (if decide (Status job = StatusPending)
       then _ ← send (on_LPush p) (redis_LPush queueKey (ID job)); mret tt
       else mret tt);
  mret job.

(** [ProcessImage], the upload saved and the job added under the plan. *)
Definition ProcessImage_under (p : plan) (h : Handler) (now : Time)
    (rnd : result (list Byte.byte)) (c : gin_Context) (w : World V)
    : Response * World V :=
  match c_FormFile "image" c with
  | Err _ => (c_JSON http_StatusBadRequest {[ "error" := "No image provided" ]}, w)
  | Ok file =>
  match generateID rnd with
  | Err _ =>
      (c_JSON http_StatusInternalServerError {[ "error" := "Failed to generate job ID" ]}, w)
  | Ok jobID =>
  let filename := jobID +:+ filepath_Ext (Filename file) in
  let uploadPath := filepath_Join (uploadDir h) filename in
  match c_SaveUploadedFile_under (on_Save p) file uploadPath (disk w) with
  | (Err _, fs) =>
      (c_JSON http_StatusInternalServerError
         {[ "error" := "Failed to save the uploaded file" ]}, mkWorld (jobQueue w) fs)
  | (Ok _, fs) =>
  let job := mkJob jobID StatusPending uploadPath "" "" zero_Time zero_Time in
  match AddJob_under p now job (jobQueue w) with
  | (Err _, db) =>
      (c_JSON http_StatusInternalServerError
         {[ "error" := "Failed to add job to queue" ]}, mkWorld db fs)
  | (Ok job, db) =>
      (c_JSON http_StatusAccepted
         (<["status" := Status job]> {[ "job_id" := jobID ]}), mkWorld db fs)
  end end end end.
End Faults.

End faults.

(** ** More sample stores: documents that may be damaged *)

Module cases.
Import queue handlers faults.

(** A codec over documents that may be damaged: [None] is a document that
    [json.Unmarshal] rejects. *)
#[global] Instance damaged_json : JSON (option document) := {|
  json_Marshal j := match json_Marshal (V := document) j with
                    | Ok d => Ok (Some d)
                    | Err e => Err e
                    end;
  json_Unmarshal v := match v with
                      | Some d => json_Unmarshal d
                      | None => Err (errorString "unexpected end of JSON input")
                      end
|}.

(** The record of job "a" is damaged; "a" is queued ahead of "b". *)
Definition db_damaged : Redis (option document) :=
  mkRedis {[ jobKey "a" := Entry None (Some sample.day) ]} {[ queueKey := ["b"; "a"] ]}.

Definition job_done : Job :=
  mkJob "a" StatusCompleted "uploads/a.png" "results/a.png" "" 0 0.
Definition job_archived : Job :=
  mkJob "c" "archived" "uploads/c.png" "" "" 5 5.

Definition world_completed : World document :=
  mkWorld sample.db_completed {[ "results/a.png" := "PNG" ]}.
Definition world_completed_no_file : World document := mkWorld sample.db_completed ∅.
Definition world_failed : World document := mkWorld sample.db_failed ∅.

(** [Time.MarshalJSON] accepts the instants whose year is in 0..9999, so
    that [json.Marshal] fails on a job with another time: the typed codec
    with this check. *)
Definition year_0 : Time := -62167219200 * time_Second.
Definition year_10000 : Time := 253402300800 * time_Second.
Definition year_in_range (t : Time) : Prop := year_0 <= t < year_10000.
Definition year_outside_of_range : error :=
  errorString "Time.MarshalJSON: year outside of range [0,9999]".
Definition ranged_json : JSON document := {|
  json_Marshal j :=
    if decide (year_in_range (CreatedAt j) /\ year_in_range (UpdatedAt j))
    then json_Marshal (JSON := typed_json) j
    else Err year_outside_of_range;
  json_Unmarshal d := json_Unmarshal (JSON := typed_json) d
|}.
Definition job_year_10000 : Job :=
  mkJob "a" StatusProcessing "uploads/a.png" "" "" year_10000 0.

(** The connection to Redis is lost once the record is stored: LPUSH is not
    run. *)
Definition connection_refused : error := errorString "connection refused".
Definition lpush_not_run : plan := mkPlan None None (Some (NotRun connection_refused)).

Definition idle_view : frontend.view := frontend.mkView "idle" 0 None None None.
Definition polling_view : frontend.view := frontend.mkView "processing" 40 (Some "a") None None.

End cases.

(** * Properties *)

Import queue handlers history pool.

(** ** The codec instance and the keys *)

#[global] Instance typed_json_laws : JSONLaws document.
Proof.
  constructor. intros [i s ip op e c u]. eexists. split; [reflexivity|].
  cbn. unfold omitempty. repeat case_decide; subst; reflexivity.
Qed.

Lemma jobKey_inj a b : jobKey a = jobKey b -> a = b.
Proof. unfold jobKey. cbn. intros E. by inversion E. Qed.

(** Job records and the pending queue never share a key. *)
Lemma jobKey_ne_queueKey jobID : jobKey jobID <> queueKey.
Proof. unfold jobKey, queueKey. cbn. intros E. inversion E. Qed.

Lemma expiration_24h : 24 * time_Hour <> 0.
Proof. by vm_compute. Qed.

Section QueueFacts.
Context {V : Type} `{JSON V}.
Implicit Types (db : Redis V) (job : Job).

Lemma redis_Get_store now key db : snd (redis_Get now key db) = db.
Proof. unfold redis_Get. destruct (keys db !! key) as [e|]; [destruct (live now e)|]; reflexivity. Qed.

Lemma GetJob_store now jobID db : snd (GetJob now jobID db) = db.
Proof.
  unfold GetJob. pose proof (redis_Get_store now (jobKey jobID) db) as E.
  destruct (redis_Get now (jobKey jobID) db) as [[v|[|msg]] db']; cbn in E; subst db'.
  - destruct (json_Unmarshal v); reflexivity.
  - reflexivity.
  - reflexivity.
Qed.

(** [GetJob] reads the string keys only. *)
Lemma GetJob_keys now jobID db db' :
  keys db = keys db' -> fst (GetJob now jobID db) = fst (GetJob now jobID db').
Proof.
  intros E. unfold GetJob, redis_Get. rewrite E.
  destruct (keys db' !! jobKey jobID) as [e|]; [destruct (live now e)|]; try reflexivity.
  destruct (json_Unmarshal (value e)); reflexivity.
Qed.

Lemma GetJob_unknown now jobID db :
  unknown now jobID db -> GetJob now jobID db = (Ok None, db).
Proof.
  unfold unknown, GetJob, redis_Get.
  destruct (keys db !! jobKey jobID) as [e|]; [intros ->|]; reflexivity.
Qed.

Lemma GetJob_found now jobID db job db' :
  GetJob now jobID db = (Ok (Some job), db') ->
  db' = db /\ exists e, keys db !! jobKey jobID = Some e /\ live now e = true
                        /\ json_Unmarshal (value e) = Ok job.
Proof.
  intros E. split.
  - rewrite <- (GetJob_store now jobID db), E. reflexivity.
  - revert E. unfold GetJob, redis_Get.
    destruct (keys db !! jobKey jobID) as [e|]; [|discriminate].
    destruct (live now e) eqn:L; [|discriminate].
    destruct (json_Unmarshal (value e)) eqn:U; [|discriminate].
    intros [= <- _]. eauto.
Qed.
End QueueFacts.

(** ** The paths the file server looks at *)

(** [strings.HasSuffix] holds of the strings that end in the suffix, and
    [containsDotDot] of the paths one of whose elements, between slashes, is
    "..". *)
Lemma substring_all (s : string) : substring 0 (String.length s) s = s.
Proof. induction s as [|c s IH]; [reflexivity|]. cbn. by rewrite IH. Qed.

Lemma substring_append_r (p s : string) (n : nat) :
  substring (String.length p) n (p +:+ s) = substring 0 n s.
Proof. induction p as [|c p IH]; [reflexivity|]. cbn. exact IH. Qed.

Lemma substring_split (s : string) (n : nat) :
  (n <= String.length s)%nat ->
  s = substring 0 n s +:+ substring n (String.length s - n) s.
Proof.
  revert n. induction s as [|c s IH]; intros [|n] Hn; cbn in *; try lia.
  - reflexivity.
  - by rewrite substring_all.
  - change (String c s
            = String c (substring 0 n s +:+ substring n (String.length s - n) s)).
    f_equal. apply IH. lia.
Qed.

Lemma length_append (p s : string) :
  String.length (p +:+ s) = (String.length p + String.length s)%nat.
Proof.
  induction p as [|c p IH]; [reflexivity|].
  change (S (String.length (p +:+ s)) = S (String.length p + String.length s)).
  by rewrite IH.
Qed.

Lemma strings_HasSuffix_spec (s suffix : string) :
  strings_HasSuffix s suffix = true <-> exists p, s = p +:+ suffix.
Proof.
  unfold strings_HasSuffix. rewrite andb_true_iff, !bool_decide_eq_true. split.
  - intros [Hlen Hsub]. exists (substring 0 (String.length s - String.length suffix) s).
    rewrite (substring_split s (String.length s - String.length suffix)) at 1 by lia.
    replace (String.length s - (String.length s - String.length suffix))%nat
      with (String.length suffix) by lia.
    by rewrite Hsub.
  - intros [p ->]. rewrite length_append. split; [lia|].
    replace (String.length p + String.length suffix - String.length suffix)%nat
      with (String.length p) by lia.
    by rewrite substring_append_r, substring_all.
Qed.

Lemma prefix_append (x y : string) : String.prefix x (x +:+ y) = true.
Proof.
  induction x as [|c x IH]; [by destruct y|].
  change (String.prefix (String c x) (String c (x +:+ y)) = true).
  cbn. by destruct (ascii_dec c c).
Qed.

Lemma append_empty_r (s : string) : s +:+ "" = s.
Proof.
  induction s as [|c s IH]; [reflexivity|].
  change (String c (s +:+ "") = String c s). by rewrite IH.
Qed.

Lemma append_assoc (a b c : string) : (a +:+ b) +:+ c = a +:+ (b +:+ c).
Proof.
  induction a as [|x a IH]; [reflexivity|].
  change (String x ((a +:+ b) +:+ c) = String x (a +:+ (b +:+ c))). by rewrite IH.
Qed.

Lemma strings_Contains_append (p s x : string) :
  strings_Contains s x = true -> strings_Contains (p +:+ s) x = true.
Proof.
  intros Hs. induction p as [|c p IH]; [exact Hs|].
  change (strings_Contains (String c (p +:+ s)) x = true).
  cbn [strings_Contains]. rewrite IH. apply orb_true_r.
Qed.

Lemma strings_Contains_prefix (x y : string) : strings_Contains (x +:+ y) x = true.
Proof.
  destruct x as [|c x]; [by destruct y|].
  change (strings_Contains (String c (x +:+ y)) (String c x) = true).
  cbn [strings_Contains].
  change (String c (x +:+ y)) with (String c x +:+ y). by rewrite prefix_append.
Qed.

Lemma fields_from_Contains (f : ascii -> bool) (field s x : string) :
  x ∈ fields_from f field s -> strings_Contains (field +:+ s) x = true.
Proof.
  revert field. induction s as [|r s IH]; intros field; cbn [fields_from].
  - case_decide; [by intros ?%elem_of_nil|].
    intros ->%list_elem_of_singleton. apply strings_Contains_prefix.
  - destruct (f r).
    + intros [Hx|Hx]%elem_of_app.
      * case_decide; [by apply elem_of_nil in Hx|].
        apply list_elem_of_singleton in Hx as ->. apply strings_Contains_prefix.
      * apply (IH ""), (strings_Contains_append (field +:+ String r "") s) in Hx.
        by rewrite append_assoc in Hx.
    + intros Hx%IH. by rewrite append_assoc in Hx.
Qed.

Lemma containsDotDot_spec (v : string) :
  containsDotDot v = true <-> ".." ∈ strings_FieldsFunc isSlashRune v.
Proof.
  unfold containsDotDot. split.
  - destruct (strings_Contains v ".."); [|discriminate]. cbn [negb].
    intros (x & Hx & ->%bool_decide_eq_true)%existsb_exists.
    by apply list_elem_of_In.
  - intros Hin. pose proof (fields_from_Contains isSlashRune "" v ".." Hin) as Hc.
    change ("" +:+ v) with v in Hc. rewrite Hc. cbn [negb].
    apply existsb_exists. exists "..". split; [by apply list_elem_of_In|].
    by apply bool_decide_eq_true.
Qed.

(** ** The status reader and the artifact download *)

Section HandlerFacts.
Context {V : Type} `{JSON V} `{GoLib}.
Implicit Types (w : World V) (c : gin_Context) (h : Handler).

Lemma world_eta w : mkWorld (jobQueue w) (disk w) = w.
Proof. by destruct w. Qed.

(** What [GetResult] answers for a record that [GetJob] finds. *)
Lemma GetResult_found h now c w job :
  c_Query "id" c <> "" ->
  GetJob now (c_Query "id" c) (jobQueue w) = (Ok (Some job), jobQueue w) ->
  exists obj, GetResult h now c w = (c_JSON http_StatusOK obj, w)
    /\ obj =
       let result : gin_H := <["status" := Status job]> {[ "job_id" := ID job ]} in
       if decide (Status job = StatusCompleted) then
         match os_Stat (OutputPath job) (disk w) with
         | Ok _ =>
             <["completed_at" := time_Format (UpdatedAt job) time_RFC3339]>
               (<["result_url" := "/api/download/" +:+ ID job]> result)
         | Err _ => <["error" := "Result file not found"]> result
         end
       else if decide (Status job = StatusFailed) then <["error" := Error job]> result
       else if decide (Status job = StatusProcessing) then
         <["started_at" := time_Format (UpdatedAt job) time_RFC3339]> result
       else result.
Proof.
  intros Hid Hget. unfold GetResult. rewrite decide_False by exact Hid.
  rewrite Hget, world_eta. eexists. split; reflexivity.
Qed.

(** C9. The status reader is read-only: whatever the store holds and
    whatever job ID is asked for, [GetJob] and [GetResult] leave the store
    (every record with its expiry, and the pending queue) and the disk
    exactly as they were. *)
Theorem GetResult_read_only h now c w :
  snd (GetResult h now c w) = w
  /\ forall jobID, snd (GetJob now jobID (jobQueue w)) = jobQueue w.
Proof.
  split; [|intros; apply GetJob_store].
  unfold GetResult. case_decide; [reflexivity|].
  pose proof (GetJob_store now (c_Query "id" c) (jobQueue w)) as E.
  destruct (GetJob now (c_Query "id" c) (jobQueue w)) as [[[job|]|e] db];
    cbn in E; subst db; cbn; apply world_eta.
Qed.

(** C6. For a job ID the store does not know (its key was never set, or has
    expired), [GetJob] yields no job and no error and [GetResult] answers
    404 "Job not found"; for a job that is still pending the answer is 200
    with the status "pending", which is a different response. *)
Theorem GetResult_unknown_job h now c w :
  c_Query "id" c <> "" ->
  unknown now (c_Query "id" c) (jobQueue w) ->
  GetJob now (c_Query "id" c) (jobQueue w) = (Ok None, jobQueue w)
  /\ GetResult h now c w
     = (c_JSON http_StatusNotFound {[ "error" := "Job not found" ]}, w)
  /\ forall w' job,
       GetJob now (c_Query "id" c) (jobQueue w') = (Ok (Some job), jobQueue w') ->
       Status job = StatusPending ->
       GetResult h now c w'
       = (c_JSON http_StatusOK (<["status" := "pending"]> {[ "job_id" := ID job ]}), w')
       /\ fst (GetResult h now c w') <> fst (GetResult h now c w).
Proof.
  intros Hid Hun. pose proof (GetJob_unknown _ _ _ Hun) as Hget.
  assert (Hnf : GetResult h now c w
     = (c_JSON http_StatusNotFound {[ "error" := "Job not found" ]}, w)).
  { unfold GetResult. rewrite decide_False by exact Hid.
    rewrite Hget. by rewrite world_eta. }
  split; [exact Hget|]. split; [exact Hnf|].
  intros w' job Hget' Hst.
  destruct (GetResult_found h now c w' job Hid Hget') as (obj & E & ->).
  rewrite Hst in E. rewrite E, Hnf. split; [reflexivity|].
  cbn. intros [=].
Qed.

(** C7. For a job whose record has the status "failed", [GetResult] answers
    200 with the error text of the record, unchanged, in the field "error". *)
Theorem GetResult_failed_error h now c w job :
  c_Query "id" c <> "" ->
  GetJob now (c_Query "id" c) (jobQueue w) = (Ok (Some job), jobQueue w) ->
  Status job = StatusFailed ->
  exists obj, GetResult h now c w = (c_JSON http_StatusOK obj, w)
    /\ obj = <["error" := Error job]>
               (<["status" := "failed"]> {[ "job_id" := ID job ]})
    /\ obj !! "error" = Some (Error job).
Proof.
  intros Hid Hget Hst.
  destruct (GetResult_found h now c w job Hid Hget) as (obj & E & ->).
  rewrite Hst in E. eexists. split; [exact E|].
  split; [reflexivity|]. cbn. apply lookup_insert_eq.
Qed.

(** C10. For a job whose record has the status "completed" and whose output
    file is not on disk, [GetResult] still answers 200 with the status
    "completed" and the error "Result file not found", without result URL
    or completion time; whenever a completed job's answer carries a result
    URL, the output file is on disk. *)
Theorem GetResult_completed_file h now c w job :
  c_Query "id" c <> "" ->
  GetJob now (c_Query "id" c) (jobQueue w) = (Ok (Some job), jobQueue w) ->
  Status job = StatusCompleted ->
  exists obj, GetResult h now c w = (c_JSON http_StatusOK obj, w)
    /\ obj !! "status" = Some "completed"
    /\ (disk w !! OutputPath job = None ->
        obj = <["error" := "Result file not found"]>
                (<["status" := "completed"]> {[ "job_id" := ID job ]})
        /\ obj !! "result_url" = None /\ obj !! "completed_at" = None)
    /\ (is_Some (obj !! "result_url") ->
        is_Some (disk w !! OutputPath job)
        /\ obj !! "result_url" = Some ("/api/download/" +:+ ID job)
        /\ obj !! "completed_at" = Some (time_Format (UpdatedAt job) time_RFC3339)).
Proof.
  intros Hid Hget Hst.
  destruct (GetResult_found h now c w job Hid Hget) as (obj & E & ->).
  rewrite Hst in E. eexists. split; [exact E|]. cbn.
  unfold os_Stat. destruct (disk w !! OutputPath job) as [bytes|] eqn:Hfile.
  - split; [by simplify_map_eq|]. split; [discriminate|].
    intros _. split; [eauto|]. by simplify_map_eq.
  - split; [by simplify_map_eq|]. split.
    + intros _. split; [reflexivity|]. by simplify_map_eq.
    + intros [x Hx]. by simplify_map_eq.
Qed.

End HandlerFacts.

(** ** What the queue operations do to the store *)

Section QueueEffects.
Context {V : Type} `{JSON V}.
Implicit Types (db : Redis V) (job : Job).

Lemma ID_added now job : ID (added now job) = ID job.
Proof. unfold added. by case_decide. Qed.

Lemma redis_Set_24h now key (v : V) db :
  redis_Set now key v (24 * time_Hour) db
  = (Ok tt, mkRedis (<[key := Entry v (Some (now + 24 * time_Hour))]> (keys db)) (lists db)).
Proof. unfold redis_Set. by rewrite decide_False by apply expiration_24h. Qed.

Lemma AddJob_added now job :
  AddJob now job
  = (let job := added now job in
     jobJSON ← lift (json_Marshal job);
     _ ← redis_Set now (jobKey (ID job)) jobJSON (24 * time_Hour);
     _ ← (if decide (Status job = StatusPending)
          then _ ← redis_LPush queueKey (ID job); mret tt
          else mret tt);
     mret job).
Proof. reflexivity. Qed.

Lemma AddJob_ok now job db v :
  json_Marshal (added now job) = Ok v ->
  AddJob now job db
  = (Ok (added now job),
     mkRedis (<[jobKey (ID job) := Entry v (Some (now + 24 * time_Hour))]> (keys db))
       (if decide (Status (added now job) = StatusPending)
        then <[queueKey := ID job :: pending db]> (lists db)
        else lists db)).
Proof.
  intros Hm. rewrite AddJob_added. unfold mbind, M_bind, lift, mret, M_ret.
  cbv zeta. rewrite Hm, redis_Set_24h, ID_added.
  case_decide; reflexivity.
Qed.

Lemma AddJob_err now job db e :
  json_Marshal (added now job) = Err e -> AddJob now job db = (Err e, db).
Proof.
  intros Hm. rewrite AddJob_added. unfold mbind, M_bind, lift. cbv zeta.
  by rewrite Hm.
Qed.

Lemma UpdateJob_ok now job db v :
  json_Marshal (set_UpdatedAt now job) = Ok v ->
  UpdateJob now job db
  = (Ok (set_UpdatedAt now job),
     mkRedis (<[jobKey (ID job) := Entry v (Some (now + 24 * time_Hour))]> (keys db))
       (lists db)).
Proof.
  intros Hm. unfold UpdateJob, mbind, M_bind, lift, mret, M_ret.
  by rewrite Hm, redis_Set_24h.
Qed.

Lemma UpdateJob_err now job db e :
  json_Marshal (set_UpdatedAt now job) = Err e -> UpdateJob now job db = (Err e, db).
Proof. intros Hm. unfold UpdateJob, mbind, M_bind, lift. by rewrite Hm. Qed.

(** RPOP on the pending queue, by the shape of the queue. *)
Lemma redis_RPop_empty db :
  pending db = [] -> redis_RPop queueKey db = (Err redis_Nil, db).
Proof.
  unfold pending, redis_RPop. destruct (lists db !! queueKey) as [l|]; cbn; [|done].
  by intros ->.
Qed.

Lemma redis_RPop_snoc db l x :
  pending db = l ++ [x] ->
  exists db', redis_RPop queueKey db = (Ok x, db')
              /\ keys db' = keys db /\ pending db' = l.
Proof.
  unfold pending, redis_RPop. destruct (lists db !! queueKey) as [l0|] eqn:E; cbn.
  - intros ->. rewrite last_snoc, removelast_last. eexists. split; [reflexivity|].
    split; [reflexivity|]. unfold pending; cbn.
    destruct l; [by rewrite lookup_delete_eq|by rewrite lookup_insert_eq].
  - by destruct l.
Qed.

Lemma PopPendingJob_empty now db :
  pending db = [] -> PopPendingJob now db = (Ok None, db).
Proof. intros E. unfold PopPendingJob. by rewrite (redis_RPop_empty _ E). Qed.

Lemma PopPendingJob_snoc now db l x :
  pending db = l ++ [x] ->
  exists db', PopPendingJob now db = (fst (GetJob now x db), db')
              /\ keys db' = keys db /\ pending db' = l.
Proof.
  intros E. destruct (redis_RPop_snoc _ _ _ E) as (db' & Hpop & Hk & Hp).
  exists db'. unfold PopPendingJob. rewrite Hpop.
  rewrite (surjective_pairing (GetJob now x db')), GetJob_store.
  by rewrite (GetJob_keys now x db' db Hk).
Qed.
End QueueEffects.

(** ** The pending queue is first in, first out *)

Section Fifo.
Context {V : Type} `{JSON V}.
Implicit Types (db : Redis V) (job : Job).

Lemma queue_order_snoc db head rest :
  queue_order db = head :: rest -> pending db = rev rest ++ [head].
Proof.
  unfold queue_order. intros E. rewrite <- (rev_involutive (pending db)), E. reflexivity.
Qed.

Lemma AddJob_queue now job job' db db' :
  AddJob now job db = (Ok job', db') ->
  job' = added now job
  /\ pending db' = (if decide (Status job' = StatusPending)
                    then ID job :: pending db else pending db).
Proof.
  destruct (json_Marshal (added now job)) as [v|e] eqn:Hm.
  - rewrite (AddJob_ok _ _ _ _ Hm). intros [= <- <-]. split; [reflexivity|].
    unfold pending at 1. cbn. case_decide; [by rewrite lookup_insert_eq|reflexivity].
  - by rewrite (AddJob_err _ _ _ _ Hm).
Qed.

(** C2 (amended). [PopPendingJob] removes the ID at the head of the pending
    queue (the earliest enqueued of the IDs present; [AddJob] appends a
    pending job's ID at the tail) and returns the job record stored under that
    ID, and no job and no error when that record is unknown to the store; on
    an empty queue it returns no job and no error and leaves the store as it
    was. *)
Theorem PopPendingJob_fifo now db :
  (queue_order db = [] -> PopPendingJob now db = (Ok None, db))
  /\ (forall head rest, queue_order db = head :: rest ->
      exists db', PopPendingJob now db = (fst (GetJob now head db), db')
        /\ queue_order db' = rest /\ keys db' = keys db
        /\ (unknown now head db -> PopPendingJob now db = (Ok None, db')))
  /\ (forall job job' db', AddJob now job db = (Ok job', db') ->
      Status job' = StatusPending -> queue_order db' = queue_order db ++ [ID job]).
Proof.
  split; [|split].
  - unfold queue_order. intros E. apply PopPendingJob_empty.
    by rewrite <- (rev_involutive (pending db)), E.
  - intros head rest E. apply queue_order_snoc in E.
    destruct (PopPendingJob_snoc now db _ _ E) as (db' & Hpop & Hk & Hp).
    exists db'. split; [exact Hpop|]. split; [|split; [exact Hk|]].
    + unfold queue_order. rewrite Hp. apply rev_involutive.
    + intros Hun. by rewrite Hpop, (GetJob_unknown _ _ _ Hun).
  - intros job job' db' Hadd Hst.
    destruct (AddJob_queue _ _ _ _ _ Hadd) as [_ Hp].
    unfold queue_order. rewrite Hp, decide_True by exact Hst. reflexivity.
Qed.
End Fifo.

(** ** Submitting a job *)

Section Submit.
Context {V : Type} `{JSON V} `{GoLib}.
Implicit Types (db : Redis V) (job : Job) (w : World V).

Lemma GetJob_live now jobID db v expiry job :
  keys db !! jobKey jobID = Some (Entry v (Some expiry)) ->
  now < expiry -> json_Unmarshal v = Ok job ->
  GetJob now jobID db = (Ok (Some job), db).
Proof.
  intros Hk Hlt Hu. unfold GetJob, redis_Get. rewrite Hk. unfold live. cbn.
  rewrite bool_decide_eq_true_2 by exact Hlt. by rewrite Hu.
Qed.

(** After a successful [AddJob] the record can be read back until it expires. *)
Lemma AddJob_then_GetJob `{!JSONLaws V} now job job' db db' t :
  AddJob now job db = (Ok job', db') -> t < now + 24 * time_Hour ->
  GetJob t (ID job) db' = (Ok (Some job'), db').
Proof.
  intros Hadd Hlt. destruct (json_roundtrip (added now job)) as (v & Hm & Hu).
  rewrite (AddJob_ok _ _ _ _ Hm) in Hadd. injection Hadd as <- <-.
  eapply GetJob_live; [|exact Hlt|exact Hu]. cbn. apply lookup_insert_eq.
Qed.

(** C4. After a successful [ProcessImage] (answer 202) the store holds, under
    the generated ID, a record with the status "pending" whose [created_at]
    and [updated_at] are equal; the ID has been appended at the tail of the
    pending queue; and the caller receives the job ID with the status
    "pending". *)
Theorem ProcessImage_accepted `{!JSONLaws V} h now rnd c w obj w' :
  ProcessImage h now rnd c w = (c_JSON http_StatusAccepted obj, w') ->
  exists jobID job,
    generateID rnd = Ok jobID
    /\ obj = <["status" := "pending"]> {[ "job_id" := jobID ]}
    /\ queue_order (jobQueue w') = queue_order (jobQueue w) ++ [jobID]
    /\ ID job = jobID /\ Status job = StatusPending
    /\ CreatedAt job = UpdatedAt job /\ CreatedAt job = now
    /\ forall t, t < now + 24 * time_Hour ->
         GetJob t jobID (jobQueue w') = (Ok (Some job), jobQueue w').
Proof.
  unfold ProcessImage. destruct (c_FormFile "image" c) as [file|]; [|by intros [=]].
  destruct (generateID rnd) as [jobID|]; [|by intros [=]].
  cbn. set (uploadPath := filepath_Join _ _).
  set (job := mkJob jobID StatusPending uploadPath "" "" zero_Time zero_Time).
  destruct (AddJob now job (jobQueue w)) as [[job'|e] db'] eqn:Hadd; [|by intros [=]].
  intros [= <- <-]. cbn.
  destruct (AddJob_queue _ _ _ _ _ Hadd) as [-> Hp].
  assert (Hst : Status (added now job) = StatusPending) by reflexivity.
  exists jobID, (added now job). split; [reflexivity|]. split; [by rewrite Hst|].
  split; [|split; [reflexivity|split; [exact Hst|split; [reflexivity|split; [reflexivity|]]]]].
  - unfold queue_order. rewrite Hp, decide_True by exact Hst. reflexivity.
  - intros t Ht. exact (AddJob_then_GetJob _ _ _ _ _ _ Hadd Ht).
Qed.
End Submit.

(** ** Expiry of job records *)

Section Expiry.
Context {V : Type} `{JSON V}.
Implicit Types (db : Redis V) (job : Job) (o : op).

Lemma exec_unit {A} (m : M (Redis V) A) db :
  snd ((_ ← m; mret tt) db) = snd (m db)
  /\ (fst ((_ ← m; mret tt) db) = Ok tt <-> exists a, fst (m db) = Ok a).
Proof.
  unfold mbind, M_bind, mret, M_ret. destruct (m db) as [[a|e] db']; cbn.
  - split; [reflexivity|]. split; eauto.
  - split; [reflexivity|]. split; [discriminate|]. by intros [a [=]].
Qed.

(** The string keys after a write of [job]: the record is set with a time to
    live of 24 hours counted from the write. *)
Lemma AddJob_keys now job job' db db' :
  AddJob now job db = (Ok job', db') ->
  exists v, json_Marshal job' = Ok v
    /\ keys db' = <[jobKey (ID job) := Entry v (Some (now + 24 * time_Hour))]> (keys db).
Proof.
  destruct (json_Marshal (added now job)) as [v|e] eqn:Hm.
  - rewrite (AddJob_ok _ _ _ _ Hm). intros [= <- <-]. eauto.
  - by rewrite (AddJob_err _ _ _ _ Hm).
Qed.

Lemma UpdateJob_keys now job job' db db' :
  UpdateJob now job db = (Ok job', db') ->
  job' = set_UpdatedAt now job /\ lists db' = lists db
  /\ exists v, json_Marshal job' = Ok v
    /\ keys db' = <[jobKey (ID job) := Entry v (Some (now + 24 * time_Hour))]> (keys db).
Proof.
  destruct (json_Marshal (set_UpdatedAt now job)) as [v|e] eqn:Hm.
  - rewrite (UpdateJob_ok _ _ _ _ Hm). intros [= <- <-]. eauto.
  - by rewrite (UpdateJob_err _ _ _ _ Hm).
Qed.

Lemma PopPendingJob_keys now db : keys (snd (PopPendingJob now db)) = keys db.
Proof.
  destruct (pending db) as [|x l] eqn:E using rev_ind.
  - by rewrite (PopPendingJob_empty _ _ E).
  - destruct (PopPendingJob_snoc now db _ _ E) as (db' & -> & Hk & _). exact Hk.
Qed.

(** An operation leaves alone the records it does not write. *)
Lemma exec_keys_other now o db jobID :
  written o <> Some jobID ->
  keys (snd (exec now o db)) !! jobKey jobID = keys db !! jobKey jobID.
Proof.
  intros Hw. destruct o as [job|job| |id]; cbn [exec];
    rewrite (proj1 (exec_unit _ _)).
  - destruct (AddJob now job db) as [[job'|e] db'] eqn:E; cbn.
    + destruct (AddJob_keys _ _ _ _ _ E) as (v & _ & ->).
      apply lookup_insert_ne. intros Hk. apply jobKey_inj in Hk. cbn in Hw. congruence.
    + destruct (json_Marshal (added now job)) as [v|e'] eqn:Hm.
      * by rewrite (AddJob_ok _ _ _ _ Hm) in E.
      * rewrite (AddJob_err _ _ _ _ Hm) in E. by injection E as _ <-.
  - destruct (UpdateJob now job db) as [[job'|e] db'] eqn:E; cbn.
    + destruct (UpdateJob_keys _ _ _ _ _ E) as (_ & _ & v & _ & ->).
      apply lookup_insert_ne. intros Hk. apply jobKey_inj in Hk. cbn in Hw. congruence.
    + destruct (json_Marshal (set_UpdatedAt now job)) as [v|e'] eqn:Hm.
      * by rewrite (UpdateJob_ok _ _ _ _ Hm) in E.
      * rewrite (UpdateJob_err _ _ _ _ Hm) in E. by injection E as _ <-.
  - by rewrite PopPendingJob_keys.
  - by rewrite GetJob_store.
Qed.

Lemma run_keys_other tr db jobID :
  Forall (fun s : Time * op => written (snd s) <> Some jobID) tr ->
  keys (run tr db) !! jobKey jobID = keys db !! jobKey jobID.
Proof.
  intros Htr. revert db. induction Htr as [|[now o] tr Hw _ IH]; intros db; [reflexivity|].
  cbn in *. change (fold_left _ tr ?d) with (run tr d). rewrite IH.
  by apply exec_keys_other.
Qed.

(** A successful write of the record of [jobID] at time [T] stores the
    serialized job with an expiry of [T] plus 24 hours. *)
Lemma exec_written T o db jobID :
  written o = Some jobID -> fst (exec T o db) = Ok tt ->
  exists v job, json_Marshal job = Ok v /\ ID job = jobID
    /\ keys (snd (exec T o db)) !! jobKey jobID
       = Some (Entry v (Some (T + 24 * time_Hour))).
Proof.
  intros Hw. destruct o as [job|job| |id]; cbn in Hw; try discriminate;
    injection Hw as <-; cbn [exec];
    rewrite (proj1 (exec_unit _ _)), (proj2 (exec_unit _ _)); intros [job' E].
  - destruct (AddJob T job db) as [r db'] eqn:Ea. cbn in E. subst r. cbn.
    destruct (AddJob_keys _ _ _ _ _ Ea) as (v & Hm & ->).
    destruct (AddJob_queue _ _ _ _ _ Ea) as [-> _].
    exists v, (added T job). split; [exact Hm|]. split; [apply ID_added|].
    apply lookup_insert_eq.
  - destruct (UpdateJob T job db) as [r db'] eqn:Ea. cbn in E. subst r. cbn.
    destruct (UpdateJob_keys _ _ _ _ _ Ea) as (-> & _ & v & Hm & ->).
    exists v, (set_UpdatedAt T job). split; [exact Hm|]. split; [reflexivity|].
    apply lookup_insert_eq.
Qed.

(** A job ID that no operation has written is unknown to the store. *)
Lemma never_written_unknown tr now jobID :
  Forall (fun s : Time * op => written (snd s) <> Some jobID) tr ->
  unknown now jobID (run tr (@empty_redis V)).
Proof. intros Htr. unfold unknown. by rewrite (run_keys_other _ _ _ Htr). Qed.

(** C1 (amended). A job record written at time [T], by [AddJob] or by
    [UpdateJob], and not written again since, is unretrievable at any time
    from [T] plus 24 hours on, whatever its status and whatever other
    operations ran in between, and it is retrievable at any time before: the
    24 hours are counted from the last write of the record, every [UpdateJob]
    restarts them. *)
Theorem record_expires_24h_after_last_write `{!JSONLaws V} T o db tr jobID :
  written o = Some jobID ->
  fst (exec T o db) = Ok tt ->
  Forall (fun s : Time * op => written (snd s) <> Some jobID) tr ->
  let db' := run tr (snd (exec T o db)) in
  (forall now, T + 24 * time_Hour <= now -> GetJob now jobID db' = (Ok None, db'))
  /\ (forall now, now < T + 24 * time_Hour ->
      exists job, GetJob now jobID db' = (Ok (Some job), db') /\ ID job = jobID).
Proof.
  intros Hw Hok Htr db'.
  destruct (exec_written _ _ _ _ Hw Hok) as (v & job & Hm & Hid & Hk).
  rewrite <- (run_keys_other tr _ _ Htr) in Hk. fold db' in Hk. split.
  - intros now Hnow. apply GetJob_unknown. unfold unknown. rewrite Hk.
    unfold live. cbn. apply bool_decide_eq_false_2. lia.
  - intros now Hnow. exists job. split; [|exact Hid].
    destruct (json_roundtrip job) as (v' & Hm' & Hu).
    rewrite Hm in Hm'. injection Hm' as <-.
    by eapply GetJob_live.
Qed.
End Expiry.

(** ** The pending queue and the status of the queued jobs *)

Section QueueInvariant.
Context {V : Type} `{JSON V} `{!JSONLaws V}.
Implicit Types (db : Redis V) (job : Job) (o : op).

Lemma Status_added now job :
  Status job = "" \/ Status job = StatusPending -> Status (added now job) = StatusPending.
Proof. unfold added. cbn. intros [E|E]; case_decide; cbn; congruence. Qed.

Lemma PopPendingJob_pending now db jobID :
  jobID ∈ pending (snd (PopPendingJob now db)) -> jobID ∈ pending db.
Proof.
  destruct (pending db) as [|x l] eqn:E using rev_ind.
  - rewrite (PopPendingJob_empty _ _ E). cbn. by rewrite E.
  - destruct (PopPendingJob_snoc now db _ _ E) as (db' & -> & _ & Hp). cbn.
    rewrite Hp. intros Hin. apply elem_of_app. by left.
Qed.

Lemma queued_pending_step now o db :
  queued_pending db -> allowed o db -> queued_pending (snd (exec now o db)).
Proof.
  intros IH Hal. destruct o as [job|job| |id]; cbn [exec];
    rewrite (proj1 (exec_unit _ _)).
  - destruct (json_roundtrip (added now job)) as (v & Hm & Hu).
    rewrite (AddJob_ok _ _ _ _ Hm). cbn. intros jobID Hin.
    destruct (decide (jobID = ID job)) as [->|Hne].
    + assert (Hst : Status (added now job) = StatusPending).
      { unfold pending in Hin. cbn in Hin. case_decide as Hd; [exact Hd|].
        destruct Hal as [E|[E|E]]; [apply Status_added; auto..|contradiction]. }
      exists (Entry v (Some (now + 24 * time_Hour))), (added now job).
      cbn. rewrite lookup_insert_eq. by rewrite ID_added.
    + assert (Hin' : jobID ∈ pending db).
      { unfold pending in Hin |- *. cbn in Hin. case_decide; [|exact Hin].
        rewrite lookup_insert_eq in Hin. cbn in Hin.
        by apply elem_of_cons in Hin as [?|?]. }
      destruct (IH _ Hin') as (e & j & Hk & Hrest). exists e, j. cbn.
      rewrite lookup_insert_ne; [done|]. intros Hk'. by apply jobKey_inj in Hk'.
  - destruct (json_roundtrip (set_UpdatedAt now job)) as (v & Hm & Hu).
    rewrite (UpdateJob_ok _ _ _ _ Hm). cbn. intros jobID Hin.
    change (jobID ∈ pending db) in Hin.
    destruct (decide (jobID = ID job)) as [->|Hne].
    + destruct Hal as [E|E]; [|contradiction].
      exists (Entry v (Some (now + 24 * time_Hour))), (set_UpdatedAt now job).
      cbn. by rewrite lookup_insert_eq.
    + destruct (IH _ Hin) as (e & j & Hk & Hrest). exists e, j. cbn.
      rewrite lookup_insert_ne; [done|]. intros Hk'. by apply jobKey_inj in Hk'.
  - intros jobID Hin. apply PopPendingJob_pending in Hin.
    rewrite PopPendingJob_keys. by apply IH.
  - by rewrite GetJob_store.
Qed.

Lemma queued_pending_invariant db : disciplined db -> queued_pending db.
Proof.
  induction 1 as [|now o db _ IH Hal].
  - intros jobID Hin. unfold pending in Hin. cbn in Hin. by apply elem_of_nil in Hin.
  - by apply queued_pending_step.
Qed.

(** C5 (amended). In every state reached from the empty store by [AddJob],
    [UpdateJob] and [PopPendingJob] in which no record was rewritten with
    another status than pending while its ID was in the queue, the queue holds
    job IDs only: each element is the ID of the record stored under it, and
    that record, read at any time, has the status pending or has expired. *)
Theorem disciplined_queue_pending db :
  disciplined db ->
  forall jobID, jobID ∈ pending db ->
    forall now, pending_record now jobID db \/ GetJob now jobID db = (Ok None, db).
Proof.
  intros Hd jobID Hin now.
  destruct (queued_pending_invariant db Hd jobID Hin) as (e & job & Hk & Hu & Hid & Hst).
  unfold pending_record, GetJob, redis_Get. rewrite Hk.
  destruct (live now e); [|by right]. rewrite Hu. left. eauto.
Qed.
End QueueInvariant.

(** ** Workers dequeueing concurrently *)

Section ListFacts.
Context {A B : Type}.
Implicit Types (l : list A) (f : A -> list B).





End ListFacts.

Section PoolFacts.
Context {V : Type} `{JSON V}.
Implicit Types (db : Redis V) (cfg : config V) (wk : worker).


(** A worker that runs alone performs [PopPendingJob]. *)
Lemma step_PopPendingJob now db :
  let '(wk1, db1) := step now fresh_worker db in
  match at_pc wk1 with
  | Idle => (returned wk1, db1) = ([fst (PopPendingJob now db)], snd (PopPendingJob now db))
  | Popped _ =>
      let '(wk2, db2) := step now wk1 db1 in
      (at_pc wk2, returned wk2, db2)
      = (Idle, [fst (PopPendingJob now db)], snd (PopPendingJob now db))
  end.
Proof.
  unfold step, PopPendingJob, fresh_worker. cbn.
  destruct (redis_RPop queueKey db) as [[x|[|msg]] db1]; cbn; try reflexivity.
  by destruct (GetJob now x db1).
Qed.




End PoolFacts.

Section Exclusivity.
Context {V : Type} `{JSON V}.
Implicit Types (db : Redis V) (cfg : config V) (wk : worker).



End Exclusivity.

(** * Concrete scenarios *)

Import sample.

Example hex_of_entropy : generateID (Ok entropy) = Ok "00010203fcfdfeff".
Proof. reflexivity. Qed.

Example fifo_two_jobs :
  queue_order db_ab = ["a"; "b"]
  /\ fst (PopPendingJob (13 * time_Hour) db_ab) = Ok (Some (added 0 job_a))
  /\ queue_order (snd (PopPendingJob (13 * time_Hour) db_ab)) = ["b"].
Proof. by vm_compute. Qed.

Example query_pending_job :
  fst (GetResult h0 time_Hour query_a (mkWorld db_a ∅))
  = c_JSON 200 (<["status" := "pending"]> {[ "job_id" := "a" ]}).
Proof. by vm_compute. Qed.

Example query_without_id :
  fst (GetResult h0 time_Hour (mkContext ∅ ∅ ∅) (mkWorld db_a ∅))
  = c_JSON 400 {[ "error" := "Job ID is required" ]}.
Proof. by vm_compute. Qed.

Example download_pending_job :
  fst (DownloadResult h0 time_Hour download_a (mkWorld db_a ∅))
  = c_JSON 404 {[ "error" := "Result not available" ]}.
Proof. by vm_compute. Qed.

Example url_paths_of_the_file_server :
  containsDotDot "/api/download/.." = true
  /\ containsDotDot "/api/../download" = true
  /\ containsDotDot "/api/download/a..b" = false
  /\ strings_FieldsFunc isSlashRune "/api//download/a..b" = ["api"; "download"; "a..b"]
  /\ strings_HasSuffix "/api/download/index.html" indexPage = true
  /\ strings_HasSuffix "/api/download/my-index.html" indexPage = false
  /\ strings_HasSuffix "index.html" indexPage = false.
Proof. by vm_compute. Qed.

Example race_for_one_job :
  workers (run_schedule [(time_Hour, 1%nat); (time_Hour, 0%nat); (time_Hour, 1%nat)]
             (start 2 db_a))
  = [mkWorker Idle [Ok None]; mkWorker Idle [Ok (Some (added 0 job_a))]].
Proof. by vm_compute. Qed.

(** C1, as stated, fails: the record of job "a" is created at time 0 and
    updated 23 hours later; at 24 hours, and until 47 hours, after its
    creation it is still retrievable. *)
Lemma updated_record_outlives_creation_ttl :
  0 + 24 * time_Hour <= day
  /\ fst (GetJob day "a" db_a_updated) = Ok (Some (set_UpdatedAt (23 * time_Hour) job_a_processing))
  /\ fst (GetJob (46 * time_Hour) "a" db_a_updated)
     = Ok (Some (set_UpdatedAt (23 * time_Hour) job_a_processing))
  /\ fst (GetJob (47 * time_Hour) "a" db_a_updated) = Ok None.
Proof. by vm_compute. Qed.

Lemma record_expires_24h_after_last_write_witness :
  let tr := [(time_Hour, OpPopPendingJob); (2 * time_Hour, OpGetJob "a");
             (23 * time_Hour, OpUpdateJob job_b)] in
  let db' : Redis document := run tr (snd (exec 0 (OpAddJob job_a) empty_redis)) in
  written (OpAddJob job_a) = Some "a"
  /\ fst (exec 0 (OpAddJob job_a) (@empty_redis document)) = Ok tt
  /\ Forall (fun s : Time * op => written (snd s) <> Some "a") tr
  /\ 0 + 24 * time_Hour <= day
  /\ GetJob day "a" db' = (Ok None, db').
Proof.
  intros tr db'.
  assert (H1 : written (OpAddJob job_a) = Some "a") by reflexivity.
  assert (H2 : fst (exec 0 (OpAddJob job_a) (@empty_redis document)) = Ok tt)
    by (vm_compute; reflexivity).
  assert (H3 : Forall (fun s : Time * op => written (snd s) <> Some "a") tr)
    by (repeat constructor; discriminate).
  assert (H4 : 0 + 24 * time_Hour <= day) by (vm_compute; discriminate).
  repeat (split; [assumption|]).
  exact (proj1 (record_expires_24h_after_last_write 0 (OpAddJob job_a) empty_redis tr "a"
                  H1 H2 H3) day H4).
Defined.

(** C2, as stated, fails: job "a" waits in the queue, ahead of job "b", until
    its record has expired; [PopPendingJob] then removes "a" from the queue
    and returns no job and no error, as it does for an empty queue, while "b"
    is still queued. *)
Lemma PopPendingJob_drops_expired_head :
  queue_order db_ab = ["a"; "b"]
  /\ fst (PopPendingJob day db_ab) = Ok None
  /\ queue_order (snd (PopPendingJob day db_ab)) = ["b"].
Proof. by vm_compute. Qed.

Lemma PopPendingJob_fifo_witness :
  queue_order db_ab = ["a"; "b"]
  /\ (exists db', PopPendingJob (13 * time_Hour) db_ab
                  = (fst (GetJob (13 * time_Hour) "a" db_ab), db')
        /\ queue_order db' = ["b"] /\ keys db' = keys db_ab
        /\ (unknown (13 * time_Hour) "a" db_ab ->
            PopPendingJob (13 * time_Hour) db_ab = (Ok None, db'))).
Proof.
  assert (H1 : queue_order db_ab = ["a"; "b"]) by (vm_compute; reflexivity).
  split; [exact H1|].
  exact (proj1 (proj2 (PopPendingJob_fifo (13 * time_Hour) db_ab)) "a" ["b"] H1).
Defined.

(** C5, as stated, fails: after [AddJob] of the pending job "a" and an
    [UpdateJob] that marks it as processing, "a" is still in the pending queue
    and its record has the status "processing". *)
Lemma queued_job_with_processing_record :
  reachable db_a_updated
  /\ pending db_a_updated = ["a"]
  /\ fst (GetJob day "a" db_a_updated)
     = Ok (Some (set_UpdatedAt (23 * time_Hour) job_a_processing))
  /\ Status (set_UpdatedAt (23 * time_Hour) job_a_processing) = StatusProcessing
  /\ StatusProcessing <> StatusPending.
Proof.
  split; [|by vm_compute].
  exists [(0, OpAddJob job_a); (23 * time_Hour, OpUpdateJob job_a_processing)].
  by vm_compute.
Qed.

Lemma disciplined_queue_pending_witness :
  let db : Redis document :=
    snd (exec (13 * time_Hour) OpPopPendingJob
           (snd (exec (12 * time_Hour) (OpAddJob job_b)
                   (snd (exec 0 (OpAddJob job_a) empty_redis))))) in
  disciplined db /\ "b" ∈ pending db
  /\ (pending_record (14 * time_Hour) "b" db
      \/ GetJob (14 * time_Hour) "b" db = (Ok None, db)).
Proof.
  intros db.
  assert (H1 : disciplined db).
  { repeat (apply disciplined_step); [apply disciplined_empty|..]; cbn; auto. }
  assert (H2 : "b" ∈ pending db) by (vm_compute; apply list_elem_of_here).
  split; [exact H1|]. split; [exact H2|].
  exact (disciplined_queue_pending db H1 "b" H2 (14 * time_Hour)).
Defined.



Lemma ProcessImage_accepted_witness :
  let w := mkWorld db_a ∅ in
  let obj : gin_H := <["status" := "pending"]> {[ "job_id" := "00010203fcfdfeff" ]} in
  ProcessImage h0 day (Ok entropy) upload w
  = (c_JSON http_StatusAccepted obj, snd (ProcessImage h0 day (Ok entropy) upload w))
  /\ queue_order (jobQueue (snd (ProcessImage h0 day (Ok entropy) upload w)))
     = ["a"; "00010203fcfdfeff"].
Proof.
  intros w obj.
  assert (H1 : ProcessImage h0 day (Ok entropy) upload w
               = (c_JSON http_StatusAccepted obj,
                  snd (ProcessImage h0 day (Ok entropy) upload w)))
    by (vm_compute; reflexivity).
  split; [exact H1|].
  destruct (ProcessImage_accepted h0 day (Ok entropy) upload w obj _ H1)
    as (jobID & job & Hid & _ & Hq & _).
  injection Hid as <-. exact Hq.
Defined.

Lemma GetResult_unknown_job_witness :
  let w := mkWorld db_a ∅ in
  c_Query "id" query_a <> ""
  /\ unknown day (c_Query "id" query_a) (jobQueue w)
  /\ GetResult h0 day query_a w
     = (c_JSON http_StatusNotFound {[ "error" := "Job not found" ]}, w).
Proof.
  intros w.
  assert (H1 : c_Query "id" query_a <> "") by (by vm_compute).
  assert (H2 : unknown day (c_Query "id" query_a) (jobQueue w)) by (by vm_compute).
  split; [exact H1|]. split; [exact H2|].
  exact (proj1 (proj2 (GetResult_unknown_job h0 day query_a w H1 H2))).
Defined.

Lemma GetResult_failed_error_witness :
  let w := mkWorld db_failed ∅ in
  let job := set_UpdatedAt time_Hour job_a_failed in
  c_Query "id" query_a <> ""
  /\ GetJob (2 * time_Hour) (c_Query "id" query_a) (jobQueue w) = (Ok (Some job), jobQueue w)
  /\ Status job = StatusFailed
  /\ exists obj, GetResult h0 (2 * time_Hour) query_a w = (c_JSON http_StatusOK obj, w)
       /\ obj = <["error" := "decode error"]>
                  (<["status" := "failed"]> {[ "job_id" := "a" ]})
       /\ obj !! "error" = Some "decode error".
Proof.
  intros w job.
  assert (H1 : c_Query "id" query_a <> "") by (by vm_compute).
  assert (H2 : GetJob (2 * time_Hour) (c_Query "id" query_a) (jobQueue w)
               = (Ok (Some job), jobQueue w)) by (vm_compute; reflexivity).
  assert (H3 : Status job = StatusFailed) by reflexivity.
  split; [exact H1|]. split; [exact H2|]. split; [exact H3|].
  exact (GetResult_failed_error h0 (2 * time_Hour) query_a w job H1 H2 H3).
Defined.

Lemma GetResult_completed_file_witness :
  let w := mkWorld db_completed ∅ in
  let job := set_UpdatedAt time_Hour job_a_completed in
  c_Query "id" query_a <> ""
  /\ GetJob (2 * time_Hour) (c_Query "id" query_a) (jobQueue w) = (Ok (Some job), jobQueue w)
  /\ Status job = StatusCompleted
  /\ disk w !! OutputPath job = None
  /\ fst (GetResult h0 (2 * time_Hour) query_a w)
     = c_JSON http_StatusOK
         (<["error" := "Result file not found"]>
            (<["status" := "completed"]> {[ "job_id" := "a" ]})).
Proof.
  intros w job.
  assert (H1 : c_Query "id" query_a <> "") by (by vm_compute).
  assert (H2 : GetJob (2 * time_Hour) (c_Query "id" query_a) (jobQueue w)
               = (Ok (Some job), jobQueue w)) by (vm_compute; reflexivity).
  assert (H3 : Status job = StatusCompleted) by reflexivity.
  assert (H4 : disk w !! OutputPath job = None) by reflexivity.
  split; [exact H1|]. split; [exact H2|]. split; [exact H3|]. split; [exact H4|].
  destruct (GetResult_completed_file h0 (2 * time_Hour) query_a w job H1 H2 H3)
    as (obj & -> & _ & Hmissing & _).
  destruct (Hmissing H4) as (-> & _). reflexivity.
Defined.



(** * Further properties of the queue *)

Import listing.

Section QueueMore.
Context {V : Type} `{JSON V}.
Implicit Types (db : Redis V) (job : Job) (o : op).

(** X1. Job records never collide: two job IDs with the same record key are
    the same ID, and no record key is the key of the pending queue. *)
Theorem job_keys_separate (a b : string) :
  (jobKey a = jobKey b -> a = b) /\ jobKey a <> queueKey.
Proof. split; [apply jobKey_inj|apply jobKey_ne_queueKey]. Qed.

Lemma GetJob_same_entry t jobID db db' :
  keys db' !! jobKey jobID = keys db !! jobKey jobID ->
  fst (GetJob t jobID db') = fst (GetJob t jobID db).
Proof.
  intros E. unfold GetJob, redis_Get. rewrite E.
  destruct (keys db !! jobKey jobID) as [e|]; [destruct (live t e)|]; try reflexivity.
  destruct (json_Unmarshal (value e)); reflexivity.
Qed.

(** X5. No queue operation changes what [GetJob] returns for a job ID whose
    record it does not write: [AddJob] and [UpdateJob] of one job leave every
    other job's record alone, [PopPendingJob] and [GetJob] leave all of them
    alone. *)
Theorem other_records_untouched now o db other t :
  written o <> Some other ->
  fst (GetJob t other (snd (exec now o db))) = fst (GetJob t other db).
Proof. intros Hw. apply GetJob_same_entry. by apply exec_keys_other. Qed.

(** X6. [PopPendingJob] changes no record: the job it hands out keeps the
    status it had (the record of a dequeued job still says "pending"); it
    takes exactly one ID off a queue that is not empty. *)
Theorem PopPendingJob_leaves_records now db :
  keys (snd (PopPendingJob now db)) = keys db
  /\ length (pending (snd (PopPendingJob now db))) = pred (length (pending db))
  /\ forall t jobID,
       fst (GetJob t jobID (snd (PopPendingJob now db))) = fst (GetJob t jobID db).
Proof.
  split; [apply PopPendingJob_keys|]. split.
  - destruct (pending db) as [|x l _] eqn:E using rev_ind.
    + rewrite (PopPendingJob_empty _ _ E). cbn. by rewrite E.
    + destruct (PopPendingJob_snoc now db _ _ E) as (db' & -> & _ & Hp). cbn.
      rewrite Hp, length_app. cbn. lia.
  - intros t jobID. apply GetJob_keys, PopPendingJob_keys.
Qed.
(** X4. [UpdateJob] does not require the job to exist.  On any store, when
    the job can be serialized, it succeeds and stores the serialized job,
    [updated_at] set to the current time and [created_at] as the caller gave
    it, under the key of the job with an expiry 24 hours later, whatever was
    under that key, and it leaves the pending queue alone; [GetJob] then
    returns what the stored document decodes to until the 24 hours are over,
    and no job from then on.  When the job cannot be serialized, [UpdateJob]
    returns the error of [json.Marshal] and writes nothing. *)
Theorem UpdateJob_creates_or_overwrites now job db :
  match json_Marshal (set_UpdatedAt now job) with
  | Ok v =>
      exists db', UpdateJob now job db = (Ok (set_UpdatedAt now job), db')
        /\ keys db'
           = <[jobKey (ID job) := Entry v (Some (now + 24 * time_Hour))]> (keys db)
        /\ lists db' = lists db
        /\ CreatedAt (set_UpdatedAt now job) = CreatedAt job
        /\ (forall t, t < now + 24 * time_Hour ->
            GetJob t (ID job) db'
            = (match json_Unmarshal v with
               | Ok job' => Ok (Some job')
               | Err e => Err e
               end, db'))
        /\ (forall t, now + 24 * time_Hour <= t ->
            GetJob t (ID job) db' = (Ok None, db'))
  | Err e => UpdateJob now job db = (Err e, db)
  end.
Proof.
  destruct (json_Marshal (set_UpdatedAt now job)) as [v|e] eqn:Hm;
    [|by apply UpdateJob_err].
  rewrite (UpdateJob_ok _ _ _ _ Hm). eexists. split; [reflexivity|].
  split; [reflexivity|]. split; [reflexivity|]. split; [reflexivity|].
  split; intros t Ht; unfold GetJob, redis_Get; cbn; rewrite lookup_insert_eq;
    unfold live; cbn.
  - rewrite bool_decide_eq_true_2 by exact Ht. by destruct (json_Unmarshal v).
  - rewrite bool_decide_eq_false_2 by lia. reflexivity.
Qed.
End QueueMore.

Section QueueMoreLaws.
Context {V : Type} `{JSON V} `{!JSONLaws V}.
Implicit Types (db : Redis V) (job : Job).

Lemma AddJob_succeeds now job db :
  exists v, json_Marshal (added now job) = Ok v
    /\ json_Unmarshal v = Ok (added now job)
    /\ AddJob now job db
       = (Ok (added now job),
          mkRedis (<[jobKey (ID job) := Entry v (Some (now + 24 * time_Hour))]> (keys db))
            (if decide (Status (added now job) = StatusPending)
             then <[queueKey := ID job :: pending db]> (lists db)
             else lists db)).
Proof.
  destruct (json_roundtrip (added now job)) as (v & Hm & Hu).
  exists v. split; [exact Hm|]. split; [exact Hu|]. by apply AddJob_ok.
Qed.

Lemma Status_added_other now job :
  Status job <> "" -> Status (added now job) = Status job.
Proof. intros Hne. unfold added. cbn. by rewrite decide_False. Qed.

(** X2. [AddJob] of a job whose status is set and is not "pending" stores the
    record, stamped with the current time whatever times the caller gave,
    readable for the next 24 hours, and leaves the pending queue as it was. *)
Theorem AddJob_other_status_not_enqueued now job db :
  Status job <> "" -> Status job <> StatusPending ->
  exists db', AddJob now job db = (Ok (added now job), db')
    /\ Status (added now job) = Status job
    /\ CreatedAt (added now job) = now /\ UpdatedAt (added now job) = now
    /\ lists db' = lists db
    /\ forall t, t < now + 24 * time_Hour ->
         GetJob t (ID job) db' = (Ok (Some (added now job)), db').
Proof.
  intros Hne Hnp. destruct (AddJob_succeeds now job db) as (v & Hm & Hu & Hadd).
  pose proof (Status_added_other now job Hne) as Hst.
  rewrite decide_False in Hadd by congruence.
  eexists. split; [exact Hadd|]. split; [exact Hst|].
  split; [by unfold added; cbn; case_decide|].
  split; [by unfold added; cbn; case_decide|].
  split; [reflexivity|]. intros t Ht.
  eapply GetJob_live; [|exact Ht|exact Hu]. cbn. apply lookup_insert_eq.
Qed.

(** X3. [AddJob] does not look for an earlier job of the same ID: adding a
    pending job twice overwrites the record and puts its ID in the queue
    twice, so that on a queue that held nothing else two calls of
    [PopPendingJob] in a row both return that job. *)
Theorem AddJob_twice_enqueues_twice t1 t2 t job db :
  Status job = "" \/ Status job = StatusPending ->
  t < t2 + 24 * time_Hour ->
  let db2 := snd (AddJob t2 job (snd (AddJob t1 job db))) in
  queue_order db2 = queue_order db ++ [ID job; ID job]
  /\ (pending db = [] ->
      exists db3 db4,
        PopPendingJob t db2 = (Ok (Some (added t2 job)), db3)
        /\ PopPendingJob t db3 = (Ok (Some (added t2 job)), db4)
        /\ pending db4 = []).
Proof.
  intros Hst Ht db2.
  destruct (AddJob_succeeds t1 job db) as (v1 & _ & _ & Hadd1).
  destruct (AddJob_succeeds t2 job (snd (AddJob t1 job db))) as (v2 & _ & Hu2 & Hadd2).
  assert (Hp1 : pending (snd (AddJob t1 job db)) = ID job :: pending db).
  { rewrite Hadd1. unfold pending at 1. cbn.
    rewrite decide_True by (by apply Status_added). by rewrite lookup_insert_eq. }
  assert (Hp2 : pending db2 = ID job :: ID job :: pending db).
  { unfold db2. rewrite Hadd2. unfold pending at 1. cbn.
    rewrite decide_True by (by apply Status_added).
    by rewrite lookup_insert_eq, Hp1. }
  assert (Hget : forall db', keys db' = keys db2 ->
            fst (GetJob t (ID job) db') = Ok (Some (added t2 job))).
  { intros db' Hk. rewrite (GetJob_keys t (ID job) db' db2 Hk).
    erewrite GetJob_live; [reflexivity| |exact Ht|exact Hu2].
    unfold db2. rewrite Hadd2. cbn. apply lookup_insert_eq. }
  split.
  - unfold queue_order. rewrite Hp2. cbn. by rewrite <- !(assoc_L (++)).
  - intros Hempty. rewrite Hempty in Hp2.
    destruct (PopPendingJob_snoc t db2 [ID job] (ID job) Hp2) as (db3 & Hpop3 & Hk3 & Hp3).
    destruct (PopPendingJob_snoc t db3 [] (ID job) Hp3) as (db4 & Hpop4 & Hk4 & Hp4).
    exists db3, db4. rewrite Hpop3, Hpop4.
    rewrite (Hget db2 eq_refl), (Hget db3 Hk3). done.
Qed.

End QueueMoreLaws.

(** ** Listing the pending jobs *)

Section OmapFacts.
Context {A B : Type}.
Implicit Types (f g : A -> option B) (l : list A).

Lemma omap_length_le f l : (length (omap f l) <= length l)%nat.
Proof. induction l as [|x l IH]; cbn; [lia|]. destruct (f x); cbn; lia. Qed.

Lemma omap_ext_in f g l : (forall x, x ∈ l -> f x = g x) -> omap f l = omap g l.
Proof.
  induction l as [|x l IH]; intros Hfg; [reflexivity|]. cbn.
  rewrite (Hfg x) by apply list_elem_of_here.
  rewrite IH by (intros y Hy; apply Hfg; by apply list_elem_of_further).
  reflexivity.
Qed.
End OmapFacts.

Section ListingFacts.
Context {V : Type} `{JSON V}.
Implicit Types (db : Redis V) (job : Job).

(** [LRANGE key 0 -1] answers the whole list. *)
Lemma redis_LRange_all key db :
  redis_LRange key 0 (-1) db = (Ok (default [] (lists db !! key)), db).
Proof.
  unfold redis_LRange. generalize (default [] (lists db !! key)). intros l.
  cbv zeta. repeat case_decide; try lia.
  - destruct l; [reflexivity|cbn in *; lia].
  - replace (Z.to_nat (Z.of_nat (length l) + -1 - 0 + 1)) with (length l) by lia.
    change (Z.to_nat 0) with 0%nat. rewrite drop_0. by rewrite take_ge.
Qed.

Lemma collect_jobs_spec now jobIDs jobs db :
  collect_jobs now jobIDs jobs db = (Ok (jobs ++ omap (readable now db) jobIDs), db).
Proof.
  revert jobs. induction jobIDs as [|jobID rest IH]; intros jobs; cbn.
  - by rewrite app_nil_r.
  - unfold readable at 1.
    pose proof (GetJob_store now jobID db) as Hs.
    destruct (GetJob now jobID db) as [[[job|]|e] db']; cbn in Hs; subst db'; cbn;
      rewrite IH; [|reflexivity..].
    by rewrite <- (assoc_L (++)).
Qed.

Lemma GetPendingJobs_omap now db :
  GetPendingJobs now db = (Ok (omap (readable now db) (pending db)), db).
Proof. unfold GetPendingJobs. rewrite redis_LRange_all. apply collect_jobs_spec. Qed.

(** X7. [GetPendingJobs] never fails and changes nothing in the store; it
    returns, in the order in which Redis holds the queue (latest enqueued
    first), the records of the queued IDs that can be read, and skips the IDs
    whose record is missing, expired or cannot be decoded. *)
Theorem GetPendingJobs_lists_readable now db :
  GetPendingJobs now db = (Ok (omap (readable now db) (pending db)), db)
  /\ (forall l, fst (GetPendingJobs now db) = Ok l ->
        (length l <= length (pending db))%nat
        /\ forall job, job ∈ l ->
             exists jobID, jobID ∈ pending db
               /\ fst (GetJob now jobID db) = Ok (Some job)).
Proof.
  split; [apply GetPendingJobs_omap|]. intros l. rewrite GetPendingJobs_omap. cbn.
  intros [= <-]. split; [apply omap_length_le|].
  intros job (jobID & Hin & Hr)%list_elem_of_omap. exists jobID. split; [exact Hin|].
  unfold readable in Hr. destruct (fst (GetJob now jobID db)) as [[j|]|e]; congruence.
Qed.

(** X8. The job that [PopPendingJob] hands out is the last one of the
    listing of [GetPendingJobs], provided the record of the ID at the head of
    the queue can be read; on an empty queue both return nothing. *)
Theorem PopPendingJob_returns_last_listed now db :
  (forall jobID, last (pending db) = Some jobID -> is_Some (readable now db jobID)) ->
  exists l, fst (GetPendingJobs now db) = Ok l
    /\ fst (PopPendingJob now db) = Ok (last l).
Proof.
  intros Hhead. rewrite GetPendingJobs_omap. eexists. split; [reflexivity|].
  destruct (pending db) as [|x l _] eqn:E using rev_ind.
  - by rewrite (PopPendingJob_empty _ _ E).
  - destruct (PopPendingJob_snoc now db _ _ E) as (db' & -> & _ & _). cbn.
    destruct (Hhead x (last_snoc _ _)) as [job Hjob].
    rewrite omap_app. cbn. rewrite Hjob. cbn. rewrite last_snoc.
    unfold readable in Hjob. destruct (fst (GetJob now x db)) as [[j|]|e]; congruence.
Qed.
End ListingFacts.

Section ListingLaws.
Context {V : Type} `{JSON V} `{!JSONLaws V}.
Implicit Types (db : Redis V) (job : Job).

(** X9. A pending job added by [AddJob] under an ID that is not queued yet
    comes first in the listing of [GetPendingJobs], before the jobs listed
    until then, which stay as they were: the listing runs from the latest
    job to the oldest, the reverse of the order of dequeueing. *)
Theorem GetPendingJobs_after_AddJob now job db t l :
  Status job = "" \/ Status job = StatusPending ->
  ID job ∉ pending db ->
  t < now + 24 * time_Hour ->
  fst (GetPendingJobs t db) = Ok l ->
  fst (GetPendingJobs t (snd (AddJob now job db))) = Ok (added now job :: l).
Proof.
  intros Hst Hfresh Ht. rewrite !GetPendingJobs_omap. cbn. intros [= <-].
  destruct (AddJob_succeeds now job db) as (v & _ & Hu & Hadd).
  rewrite Hadd. cbn. rewrite decide_True by (by apply Status_added).
  set (db' := mkRedis _ _).
  assert (Hp : pending db' = ID job :: pending db).
  { unfold pending at 1. cbn. by rewrite lookup_insert_eq. }
  rewrite Hp. cbn. f_equal.
  assert (Hnew : readable t db' (ID job) = Some (added now job)).
  { unfold readable. erewrite GetJob_live; [reflexivity| |exact Ht|exact Hu].
    cbn. apply lookup_insert_eq. }
  rewrite Hnew. f_equal.
  apply omap_ext_in. intros jobID Hin.
  unfold readable. rewrite (GetJob_same_entry t jobID db db'); [reflexivity|].
  cbn. apply lookup_insert_ne. intros Hk. apply jobKey_inj in Hk. congruence.
Qed.
End ListingLaws.

(** * Further properties of the handlers *)

Import hexdigits.

Lemma byte_of_digits_hexdigit (b : Byte.byte) :
  byte_of_digits (hexdigit (Byte.to_N b / 16)%N) (hexdigit (Byte.to_N b mod 16)%N)
  = Some b.
Proof. destruct b; vm_compute; reflexivity. Qed.

Lemma hex_EncodeToString_length (src : list Byte.byte) :
  String.length (hex_EncodeToString src) = (2 * length src)%nat.
Proof. induction src as [|b src IH]; cbn; [reflexivity|]. rewrite IH. lia. Qed.

Lemma hexdigit_is_hex (b : Byte.byte) :
  is_hex_digit (hexdigit (Byte.to_N b / 16)%N)
  /\ is_hex_digit (hexdigit (Byte.to_N b mod 16)%N).
Proof.
  pose proof (byte_of_digits_hexdigit b) as Hb. unfold byte_of_digits in Hb.
  unfold is_hex_digit.
  destruct (index_of (hexdigit (Byte.to_N b / 16)%N) hextable) as [h|]; [|discriminate].
  destruct (index_of (hexdigit (Byte.to_N b mod 16)%N) hextable) as [l|]; [|discriminate].
  eauto.
Qed.

Lemma hex_EncodeToString_digits (src : list Byte.byte) :
  hex_digits_only (hex_EncodeToString src).
Proof.
  unfold hex_digits_only. induction src as [|b src IH]; [constructor|].
  cbn [hex_EncodeToString list_ascii_of_string].
  destruct (hexdigit_is_hex b) as [Hhi Hlo]. by repeat constructor.
Qed.

Lemma hex_EncodeToString_inj (b1 b2 : list Byte.byte) :
  hex_EncodeToString b1 = hex_EncodeToString b2 -> b1 = b2.
Proof.
  revert b2. induction b1 as [|x b1 IH]; intros [|y b2];
    cbn [hex_EncodeToString]; try discriminate.
  - reflexivity.
  - intros [= Hhi Hlo Hrest]. f_equal; [|by apply IH].
    pose proof (byte_of_digits_hexdigit x) as Hx.
    rewrite Hhi, Hlo, byte_of_digits_hexdigit in Hx. congruence.
Qed.

(** X10. When [rand.Read] has filled the buffer of 8 bytes, [generateID]
    returns a job ID of exactly 16 characters, all of them digits of
    "0123456789abcdef"; in particular the ID is never empty. *)
Theorem generateID_sixteen_hex_digits (b : list Byte.byte) (id : string) :
  length b = 8%nat ->
  generateID (Ok b) = Ok id ->
  String.length id = 16%nat /\ hex_digits_only id /\ id <> "".
Proof.
  intros Hlen [= <-]. split; [by rewrite hex_EncodeToString_length, Hlen|].
  split; [apply hex_EncodeToString_digits|].
  intros E. pose proof (hex_EncodeToString_length b) as Hl.
  rewrite E, Hlen in Hl. discriminate Hl.
Qed.

(** X11. [generateID] maps different random buffers to different job IDs:
    two buffers that give the same ID are equal. *)
Theorem generateID_injective (b1 b2 : list Byte.byte) :
  generateID (Ok b1) = generateID (Ok b2) -> b1 = b2.
Proof. intros [= E]. by apply hex_EncodeToString_inj. Qed.

Import faults.

Section HandlersMore.
Context {V : Type} `{JSON V} `{GoLib}.
Implicit Types (db : Redis V) (job : Job) (w : World V) (c : gin_Context) (h : Handler).

(** The path [ProcessImage] saves the upload under. *)
Lemma ProcessImage_cases h now rnd c w :
  match c_FormFile "image" c, generateID rnd with
  | Err _, _ =>
      ProcessImage h now rnd c w
      = (c_JSON http_StatusBadRequest {[ "error" := "No image provided" ]}, w)
  | Ok _, Err _ =>
      ProcessImage h now rnd c w
      = (c_JSON http_StatusInternalServerError {[ "error" := "Failed to generate job ID" ]}, w)
  | Ok file, Ok jobID =>
      let uploadPath := filepath_Join (uploadDir h) (jobID +:+ filepath_Ext (Filename file)) in
      let job := mkJob jobID StatusPending uploadPath "" "" zero_Time zero_Time in
      let fs := <[uploadPath := Content file]> (disk w) in
      match AddJob now job (jobQueue w) with
      | (Err _, db) =>
          ProcessImage h now rnd c w
          = (c_JSON http_StatusInternalServerError
               {[ "error" := "Failed to add job to queue" ]}, mkWorld db fs)
      | (Ok job', db) =>
          ProcessImage h now rnd c w
          = (c_JSON http_StatusAccepted
               (<["status" := Status job']> {[ "job_id" := jobID ]}), mkWorld db fs)
      end
  end.
Proof.
  unfold ProcessImage. destruct (c_FormFile "image" c) as [file|]; [|reflexivity].
  destruct (generateID rnd) as [jobID|]; [|reflexivity]. cbn.
  by destruct (AddJob now _ (jobQueue w)) as [[job'|e] db].
Qed.

(** Without faults the calls under a plan are the calls themselves. *)
Lemma AddJob_under_no_fault now job db :
  AddJob_under no_fault now job db = AddJob now job db.
Proof. reflexivity. Qed.

Lemma ProcessImage_under_no_fault h now rnd c w :
  ProcessImage_under no_fault h now rnd c w = ProcessImage h now rnd c w.
Proof. reflexivity. Qed.

Lemma AddJob_under_added p now job :
  AddJob_under p now job
  = (let job := added now job in
     jobJSON ← lift (json_Marshal job);
     _ ← send (on_Set p) (redis_Set now (jobKey (ID job)) jobJSON (24 * time_Hour));
     _ ← (if decide (Status job = StatusPending)
          then _ ← send (on_LPush p) (redis_LPush queueKey (ID job)); mret tt
          else mret tt);
     mret job).
Proof. reflexivity. Qed.

(** What [AddJob] returns and leaves in the store, by the commands that
    fail. *)
Lemma AddJob_under_ok p now job db v :
  json_Marshal (added now job) = Ok v ->
  let stored :=
    mkRedis (<[jobKey (ID job) := Entry v (Some (now + 24 * time_Hour))]> (keys db))
      (lists db) in
  let queued :=
    mkRedis (keys stored) (<[queueKey := ID job :: pending db]> (lists db)) in
  AddJob_under p now job db
  = match on_Set p with
    | Some (NotRun e) => (Err e, db)
    | Some (AnswerLost e) => (Err e, stored)
    | None =>
        if decide (Status (added now job) = StatusPending) then
          match on_LPush p with
          | Some (NotRun e) => (Err e, stored)
          | Some (AnswerLost e) => (Err e, queued)
          | None => (Ok (added now job), queued)
          end
        else (Ok (added now job), stored)
    end.
Proof.
  intros Hm stored queued. rewrite AddJob_under_added.
  unfold mbind, M_bind, lift, mret, M_ret, send. cbv zeta.
  rewrite Hm, redis_Set_24h, ID_added.
  destruct (on_Set p) as [[e|e]|]; [reflexivity..|].
  case_decide; [|reflexivity].
  destruct (on_LPush p) as [[e|e]|]; reflexivity.
Qed.

Lemma AddJob_under_err p now job db e :
  json_Marshal (added now job) = Err e -> AddJob_under p now job db = (Err e, db).
Proof.
  intros Hm. rewrite AddJob_under_added. unfold mbind, M_bind, lift. cbv zeta.
  by rewrite Hm.
Qed.

(** X12. What a submission that is not accepted leaves behind.  [ProcessImage]
    refuses with one of four answers.  400 "No image provided" and 500
    "Failed to generate job ID" come before anything is written: the store and
    the disk are as before.  500 "Failed to save the uploaded file" leaves the
    store as before and touches no other file.  500 "Failed to add job to
    queue" comes when the upload is on disk, and the job may be in the store
    all the same: the record is written whenever SET was run, and the job ID
    is queued whenever SET answered and LPUSH was run.  So when SET has
    stored the record and LPUSH is not run, the caller is told 500 while the
    record is there, pending, with no entry in the queue. *)
Theorem ProcessImage_refused p h now rnd c w code obj w' :
  ProcessImage_under p h now rnd c w = (c_JSON code obj, w') ->
  code <> http_StatusAccepted ->
  (form_files c !! "image" = None /\ code = http_StatusBadRequest
   /\ obj = {[ "error" := "No image provided" ]} /\ w' = w)
  \/ (is_Some (form_files c !! "image") /\ (exists e, generateID rnd = Err e)
      /\ code = http_StatusInternalServerError
      /\ obj = {[ "error" := "Failed to generate job ID" ]} /\ w' = w)
  \/ exists file jobID,
       form_files c !! "image" = Some file /\ generateID rnd = Ok jobID
       /\ code = http_StatusInternalServerError
       /\ let uploadPath :=
            filepath_Join (uploadDir h) (jobID +:+ filepath_Ext (Filename file)) in
          let job := added now (mkJob jobID StatusPending uploadPath "" "" zero_Time zero_Time) in
          (obj = {[ "error" := "Failed to save the uploaded file" ]}
           /\ is_Some (on_Save p) /\ jobQueue w' = jobQueue w
           /\ forall path, path <> uploadPath -> disk w' !! path = disk w !! path)
          \/ (obj = {[ "error" := "Failed to add job to queue" ]}
              /\ on_Save p = None
              /\ disk w' = <[uploadPath := Content file]> (disk w)
              /\ match json_Marshal job with
                 | Err _ => jobQueue w' = jobQueue w
                 | Ok v =>
                     answered (on_Set p) && answered (on_LPush p) = false
                     /\ keys (jobQueue w')
                        = (if ran (on_Set p)
                           then <[jobKey jobID := Entry v (Some (now + 24 * time_Hour))]>
                                  (keys (jobQueue w))
                           else keys (jobQueue w))
                     /\ pending (jobQueue w')
                        = (if answered (on_Set p) && ran (on_LPush p)
                           then jobID :: pending (jobQueue w)
                           else pending (jobQueue w))
                 end).
Proof.
  unfold ProcessImage_under, c_FormFile.
  destruct (form_files c !! "image") as [file|] eqn:Hfile;
    [|intros [= <- <- <-] _; left; done].
  destruct (generateID rnd) as [jobID|e] eqn:Hid;
    [|intros [= <- <- <-] _; right; left; eauto 10].
  intros Hrun Hcode. right; right. exists file, jobID.
  split; [reflexivity|]. split; [reflexivity|]. cbv zeta in Hrun |- *.
  set (uploadPath := filepath_Join _ _) in Hrun |- *.
  set (job := mkJob jobID StatusPending uploadPath "" "" zero_Time zero_Time) in Hrun |- *.
  unfold c_SaveUploadedFile_under in Hrun.
  destruct (on_Save p) as [[e|e written]|] eqn:Hsave.
  - injection Hrun as <- <- <-. split; [reflexivity|]. left. eauto 10.
  - injection Hrun as <- <- <-. split; [reflexivity|]. left.
    split; [reflexivity|]. split; [eauto|]. split; [reflexivity|].
    intros path Hne. cbn. by rewrite lookup_insert_ne.
  - cbn in Hrun. assert (Hst : Status (added now job) = StatusPending) by reflexivity.
    destruct (json_Marshal (added now job)) as [v|e] eqn:Hm.
    + rewrite (AddJob_under_ok p _ _ _ _ Hm) in Hrun. cbv zeta in Hrun.
      rewrite decide_True in Hrun by exact Hst.
      destruct (on_Set p) as [[e|e]|]; [| |destruct (on_LPush p) as [[e|e]|]];
        injection Hrun as <- <- <-; try (by destruct Hcode);
        (split; [reflexivity|]); right; (split; [reflexivity|]);
        (split; [reflexivity|]); (split; [reflexivity|]);
        cbn [jobQueue answered ran andb keys];
        (split; [reflexivity|]); (split; [reflexivity|]);
        unfold pending at 1; cbn [lists]; by rewrite ?lookup_insert_eq.
    + rewrite (AddJob_under_err p _ _ _ _ Hm) in Hrun. injection Hrun as <- <- <-.
      split; [reflexivity|]. right. done.
Qed.

(** X15. [DownloadResult] is read-only: whatever the request and whatever it
    answers, the store and the disk are left as they were. *)
Theorem DownloadResult_read_only h now c w : snd (DownloadResult h now c w) = w.
Proof.
  unfold DownloadResult. case_decide; [reflexivity|].
  pose proof (GetJob_store now (c_Param "id" c) (jobQueue w)) as E.
  destruct (GetJob now (c_Param "id" c) (jobQueue w)) as [[[job|]|e] db];
    cbn in E; subst db; cbn; try apply world_eta.
  case_decide; apply world_eta.
Qed.

(** X16. A record that is there but cannot be decoded is reported as a server
    error, not as a missing job: [GetJob] returns the decoding error, and
    [GetResult] and [DownloadResult] answer 500 "Failed to retrieve job". *)
Theorem undecodable_record_is_server_error h now c c' w jobID e err :
  jobID <> "" -> c_Query "id" c = jobID -> c_Param "id" c' = jobID ->
  keys (jobQueue w) !! jobKey jobID = Some e -> live now e = true ->
  json_Unmarshal (value e) = Err err ->
  GetJob now jobID (jobQueue w) = (Err err, jobQueue w)
  /\ GetResult h now c w
     = (c_JSON http_StatusInternalServerError {[ "error" := "Failed to retrieve job" ]}, w)
  /\ DownloadResult h now c' w
     = (c_JSON http_StatusInternalServerError {[ "error" := "Failed to retrieve job" ]}, w).
Proof.
  intros Hne Hq Hp Hk Hl Hu.
  assert (Hget : GetJob now jobID (jobQueue w) = (Err err, jobQueue w)).
  { unfold GetJob, redis_Get. by rewrite Hk, Hl, Hu. }
  split; [exact Hget|]. split.
  - unfold GetResult. rewrite Hq, decide_False by exact Hne.
    by rewrite Hget, world_eta.
  - unfold DownloadResult. rewrite Hp, decide_False by exact Hne.
    by rewrite Hget, world_eta.
Qed.

(** X17. When the record of the ID at the head of the queue cannot be
    decoded, [PopPendingJob] returns the decoding error after it has taken the
    ID off the queue: the ID is not handed out by a later call. *)
Theorem PopPendingJob_undecodable_head_is_lost now db head rest e err :
  queue_order db = head :: rest ->
  keys db !! jobKey head = Some e -> live now e = true ->
  json_Unmarshal (value e) = Err err ->
  exists db', PopPendingJob now db = (Err err, db')
    /\ queue_order db' = rest /\ keys db' = keys db.
Proof.
  intros Hq Hk Hl Hu. apply queue_order_snoc in Hq.
  destruct (PopPendingJob_snoc now db _ _ Hq) as (db' & Hpop & Hk' & Hp').
  exists db'. split; [|split; [|exact Hk']].
  - rewrite Hpop. unfold GetJob, redis_Get. by rewrite Hk, Hl, Hu.
  - unfold queue_order. rewrite Hp'. apply rev_involutive.
Qed.
Lemma ProcessImage_accepted_inv h now rnd c w obj w' :
  ProcessImage h now rnd c w = (c_JSON http_StatusAccepted obj, w') ->
  exists file jobID,
    form_files c !! "image" = Some file /\ generateID rnd = Ok jobID
    /\ let uploadPath :=
         filepath_Join (uploadDir h) (jobID +:+ filepath_Ext (Filename file)) in
       let job := mkJob jobID StatusPending uploadPath "" "" zero_Time zero_Time in
       obj = <["status" := "pending"]> {[ "job_id" := jobID ]}
       /\ AddJob now job (jobQueue w) = (Ok (added now job), jobQueue w')
       /\ disk w' = <[uploadPath := Content file]> (disk w).
Proof.
  pose proof (ProcessImage_cases h now rnd c w) as Hc. unfold c_FormFile in Hc.
  destruct (form_files c !! "image") as [file|] eqn:Hfile; [|by rewrite Hc].
  destruct (generateID rnd) as [jobID|e] eqn:Hid; [|by rewrite Hc].
  cbv zeta in Hc.
  destruct (AddJob now _ (jobQueue w)) as [[job'|e] db] eqn:Hadd; rewrite Hc;
    [|by intros [=]].
  intros [= <- <-]. exists file, jobID. split; [reflexivity|]. split; [reflexivity|].
  destruct (AddJob_queue _ _ _ _ _ Hadd) as [-> _]. cbn. done.
Qed.

(** X13. After an accepted submission the upload is on disk, with the bytes
    of the form file, under the upload directory joined with the job ID and
    the extension of the file's name; no other file has changed; and the
    document stored under the key of the job, for 24 hours, is the
    serialization of a job whose input path is that path. *)
Theorem ProcessImage_saves_upload h now rnd c w obj w' :
  ProcessImage h now rnd c w = (c_JSON http_StatusAccepted obj, w') ->
  exists file jobID job v,
    form_files c !! "image" = Some file /\ generateID rnd = Ok jobID
    /\ ID job = jobID
    /\ InputPath job
       = filepath_Join (uploadDir h) (jobID +:+ filepath_Ext (Filename file))
    /\ disk w' = <[InputPath job := Content file]> (disk w)
    /\ disk w' !! InputPath job = Some (Content file)
    /\ json_Marshal job = Ok v
    /\ keys (jobQueue w') !! jobKey jobID
       = Some (Entry v (Some (now + 24 * time_Hour))).
Proof.
  intros Hok.
  destruct (ProcessImage_accepted_inv _ _ _ _ _ _ _ Hok)
    as (file & jobID & Hfile & Hid & _ & Hadd & Hdisk).
  destruct (AddJob_keys _ _ _ _ _ Hadd) as (v & Hm & Hk).
  match type of Hadd with AddJob _ ?j _ = _ => exists file, jobID, (added now j), v end.
  split; [exact Hfile|]. split; [exact Hid|]. split; [reflexivity|].
  split; [reflexivity|]. split; [exact Hdisk|].
  split; [rewrite Hdisk; apply lookup_insert_eq|].
  split; [exact Hm|]. rewrite Hk. apply lookup_insert_eq.
Qed.
End HandlersMore.

Section SubmitMore.
Context {V : Type} `{JSON V} `{GoLib} `{!JSONLaws V}.
Implicit Types (db : Redis V) (job : Job) (w : World V) (c : gin_Context) (h : Handler).

(** X14. Submit, then query: when [ProcessImage] has accepted an upload with
    an ID made of 8 random bytes, [GetResult] for the job ID of the answer
    answers, at any time within 24 hours of the submission, 200 with that
    job ID and the status "pending". *)
Theorem submit_then_query h now b c w obj w' :
  length b = 8%nat ->
  ProcessImage h now (Ok b) c w = (c_JSON http_StatusAccepted obj, w') ->
  exists jobID, obj !! "job_id" = Some jobID
    /\ forall h' t c',
         c_Query "id" c' = jobID -> t < now + 24 * time_Hour ->
         GetResult h' t c' w'
         = (c_JSON http_StatusOK (<["status" := "pending"]> {[ "job_id" := jobID ]}), w').
Proof.
  intros Hlen Hok.
  destruct (ProcessImage_accepted_inv _ _ _ _ _ _ _ Hok)
    as (file & jobID & _ & Hid & -> & Hadd & _).
  exists jobID. split; [by simplify_map_eq|].
  intros h' t c' Hq Ht.
  pose proof (AddJob_then_GetJob _ _ _ _ _ _ Hadd Ht) as Hget. cbn in Hget.
  assert (Hne : jobID <> "").
  { injection Hid as <-. intros E.
    pose proof (hex_EncodeToString_length b) as Hl. rewrite E, Hlen in Hl.
    discriminate Hl. }
  subst jobID.
  destruct (GetResult_found h' t c' w' _ Hne Hget) as (obj' & -> & ->).
  reflexivity.
Qed.
End SubmitMore.

(** * The routes and the download URL *)

Import router.

Lemma strip_slash_Some (path p : string) :
  strip_slash path = Some p -> path = p +:+ "/".
Proof.
  revert p. induction path as [|c rest IH]; intros p; [discriminate|].
  cbn [strip_slash]. destruct rest as [|c' rest'].
  - case_decide; [|discriminate]. intros [= <-]. by subst c.
  - destruct (strip_slash (String c' rest')) as [q|]; [|discriminate].
    intros [= <-]. change (String c q +:+ "/") with (String c (q +:+ "/")).
    f_equal. by apply IH.
Qed.

Lemma find_route_api (method path : string) (e : endpoint) :
  find_route api_routes method path = Some e ->
  (method = "POST" /\ path = "/api/process" /\ e = h_ProcessImage)
  \/ (method = "GET" /\ path = "/api/result" /\ e = h_GetResult).
Proof.
  unfold api_routes. cbn [find_route].
  repeat case_decide; intros [=]; subst; intuition auto.
Qed.

(** No route is registered under the download prefix. *)
Lemma download_path_has_no_route (method jobID : string) :
  route method ("/api/download/" +:+ jobID) = NoRoute.
Proof.
  unfold route.
  destruct (find_route api_routes method ("/api/download/" +:+ jobID)) as [e|] eqn:E.
  { by apply find_route_api in E as [(_ & [=] & _)|(_ & [=] & _)]. }
  case_decide; [reflexivity|].
  destruct (strip_slash ("/api/download/" +:+ jobID)) as [p|] eqn:Hs.
  - apply strip_slash_Some in Hs.
    destruct (find_route api_routes method p) as [e|] eqn:E'; [|reflexivity].
    apply find_route_api in E' as [(_ & -> & _)|(_ & -> & _)]; by cbn in Hs.
  - destruct (find_route api_routes method (("/api/download/" +:+ jobID) +:+ "/"))
      as [e|] eqn:E'; [|reflexivity].
    by apply find_route_api in E' as [(_ & [=] & _)|(_ & [=] & _)].
Qed.

Section Routes.
Context {V : Type} `{JSON V} `{GoLib}.
Implicit Types (w : World V) (c : gin_Context) (h : Handler).

Lemma GetResult_result_url h now c w code obj w' url :
  GetResult h now c w = (c_JSON code obj, w') ->
  obj !! "result_url" = Some url ->
  exists job, url = "/api/download/" +:+ ID job /\ Status job = StatusCompleted
    /\ GetJob now (c_Query "id" c) (jobQueue w) = (Ok (Some job), jobQueue w).
Proof.
  unfold GetResult. case_decide as Hid; [intros [= <- <- <-]; by simplify_map_eq|].
  pose proof (GetJob_store now (c_Query "id" c) (jobQueue w)) as Hs.
  destruct (GetJob now (c_Query "id" c) (jobQueue w)) as [[[job|]|e] db];
    cbn in Hs; subst db; [|intros [= <- <- <-]; by simplify_map_eq..].
  intros [= <- <- <-] Hurl. exists job.
  destruct (decide (Status job = StatusCompleted)) as [Hst|Hst].
  - destruct (os_Stat (OutputPath job) (disk w)); by simplify_map_eq.
  - repeat case_decide; by simplify_map_eq.
Qed.

(** X18. The result URL that [GetResult] hands out for a completed job is not
    served by the API: the server registers POST /api/process and
    GET /api/result only, so for no method does the router find a handler
    (or a trailing-slash redirect) for that URL, and [DownloadResult] is
    never run for it. *)
Theorem result_url_has_no_route h now c w code obj w' url :
  GetResult h now c w = (c_JSON code obj, w') ->
  obj !! "result_url" = Some url ->
  forall method, route method url = NoRoute
    /\ forall h' t rnd c' w'', serve h' t rnd method url c' w'' = None.
Proof.
  intros Hres Hurl method.
  destruct (GetResult_result_url _ _ _ _ _ _ _ _ Hres Hurl) as (job & -> & _).
  pose proof (download_path_has_no_route method (ID job)) as Hr.
  split; [exact Hr|]. intros h' t rnd c' w''. unfold serve. by rewrite Hr.
Qed.
End Routes.

(** * The polling client *)

Import frontend.

(** X19. One run of [poll] on a state whose progress is between 0 and 80:
    when polling goes on, the state is as before except for the progress,
    which stays between 0 and 80; when it stops, either the state is
    "completed" with progress 100 and a result URL that is not empty, or it
    is "error" with a message that is not empty. *)
Theorem poll_progress_and_outcome (r : http_outcome) (s s' : view) (again : bool) :
  poll r s = (s', again) ->
  0 <= progress s <= 80 ->
  if again then
    processingState s' = processingState s /\ 0 <= progress s' <= 80
    /\ resultUrl s' = resultUrl s /\ errorText s' = errorText s
  else
    (processingState s' = "completed" /\ progress s' = 100
     /\ exists url, resultUrl s' = Some url /\ url <> "")
    \/ (processingState s' = "error"
        /\ exists msg, errorText s' = Some msg /\ msg <> "").
Proof.
  assert (Hor : forall x d, d <> "" -> or_else x d <> "").
  { intros [x|] d Hd; cbn; [case_decide|]; done. }
  unfold poll. intros Hpoll Hrange. destruct r as [code data|].
  - case_decide as Hcode.
    + destruct (bool_decide (data !! "status" = Some "completed")
                && truthy (data !! "result_url")) eqn:Hdone.
      * injection Hpoll as <- <-. left. cbn. split; [reflexivity|]. split; [reflexivity|].
        apply andb_prop in Hdone as [_ Hurl]. unfold truthy in Hurl.
        destruct (data !! "result_url") as [url|]; [|discriminate].
        exists url. split; [reflexivity|]. by apply bool_decide_eq_true in Hurl.
      * case_decide as Hfailed.
        -- injection Hpoll as <- <-. right. cbn. split; [reflexivity|].
           eexists. split; [reflexivity|]. by apply Hor.
        -- injection Hpoll as <- <-. repeat case_decide; cbn; repeat split; lia.
    + injection Hpoll as <- <-. right. cbn. split; [reflexivity|].
      eexists. split; [reflexivity|]. by apply Hor.
  - injection Hpoll as <- <-. right. cbn. split; [reflexivity|].
    eexists. split; [reflexivity|]. done.
Qed.

Lemma poll_OK (data : gin_H) (s : view) :
  poll (Answer http_StatusOK data) s
  = (let status : option string := data !! "status" in
     let s0 := if decide (status = Some "processing")
               then setProgress (fun prev => Z.min (prev + 10) 80) s else s in
     if bool_decide (status = Some "completed") && truthy (data !! "result_url") then
       (setResultUrl (default "" (data !! "result_url"))
          (setProgress (fun _ => 100) (setProcessingState "completed" s0)), false)
     else if decide (status = Some "failed") then
       (setError (or_else (data !! "error") "Processing failed")
          (setProcessingState "error" s0), false)
     else
       (if decide (status = Some "pending")
        then setProgress (fun prev => Z.min prev 30) s0 else s0, true)).
Proof.
  unfold poll. rewrite decide_True by (unfold resolved, http_StatusOK; lia). reflexivity.
Qed.

Section Client.
Context {V : Type} `{JSON V} `{GoLib}.
Implicit Types (w : World V) (h : Handler) (s : view) (job : Job).

Lemma c_Query_result_request (currentJobId : string) :
  c_Query "id" (result_request currentJobId) = currentJobId.
Proof. unfold c_Query, result_request. cbn. by rewrite lookup_singleton_eq. Qed.

Lemma GetResult_request_unknown h now jobID w :
  jobID <> "" -> unknown now jobID (jobQueue w) ->
  GetResult h now (result_request jobID) w
  = (c_JSON http_StatusNotFound {[ "error" := "Job not found" ]}, w).
Proof.
  intros Hne Hun. unfold GetResult. rewrite c_Query_result_request.
  rewrite decide_False by exact Hne.
  by rewrite (GetJob_unknown _ _ _ Hun), world_eta.
Qed.

Lemma GetResult_request_found h now jobID w job :
  jobID <> "" ->
  GetJob now jobID (jobQueue w) = (Ok (Some job), jobQueue w) ->
  exists obj, GetResult h now (result_request jobID) w = (c_JSON http_StatusOK obj, w)
    /\ obj =
       let result : gin_H := <["status" := Status job]> {[ "job_id" := ID job ]} in
       if decide (Status job = StatusCompleted) then
         match os_Stat (OutputPath job) (disk w) with
         | Ok _ =>
             <["completed_at" := time_Format (UpdatedAt job) time_RFC3339]>
               (<["result_url" := "/api/download/" +:+ ID job]> result)
         | Err _ => <["error" := "Result file not found"]> result
         end
       else if decide (Status job = StatusFailed) then <["error" := Error job]> result
       else if decide (Status job = StatusProcessing) then
         <["started_at" := time_Format (UpdatedAt job) time_RFC3339]> result
       else result.
Proof.
  intros Hne Hget. apply GetResult_found; by rewrite c_Query_result_request.
Qed.

(** X20. The client polling the server's [GetResult]: for a job the store
    does not know it stops in the state "error" with the message "Job not
    found"; for a failed job it stops in the state "error" with the record's
    error text, or with "Processing failed" when that text is empty; for a
    completed job whose output file is on disk it stops in the state
    "completed" with progress 100 and the result URL of the job. *)
Theorem poll_GetResult_terminal h now jobID w s :
  jobID <> "" ->
  let answer := outcome_of (fst (GetResult h now (result_request jobID) w)) in
  (unknown now jobID (jobQueue w) ->
   poll answer s = (setError "Job not found" (setProcessingState "error" s), false))
  /\ (forall job,
        GetJob now jobID (jobQueue w) = (Ok (Some job), jobQueue w) ->
        Status job = StatusFailed ->
        poll answer s
        = (setError (if decide (Error job = "") then "Processing failed" else Error job)
             (setProcessingState "error" s), false))
  /\ (forall job,
        GetJob now jobID (jobQueue w) = (Ok (Some job), jobQueue w) ->
        Status job = StatusCompleted -> is_Some (disk w !! OutputPath job) ->
        poll answer s
        = (setResultUrl ("/api/download/" +:+ ID job)
             (setProgress (fun _ => 100) (setProcessingState "completed" s)), false)).
Proof.
  intros Hne answer. split; [|split].
  - intros Hun. unfold answer. rewrite (GetResult_request_unknown h _ _ _ Hne Hun).
    reflexivity.
  - intros job Hget Hst. unfold answer.
    destruct (GetResult_request_found h _ _ _ _ Hne Hget) as (obj & -> & Hobj).
    rewrite Hst in Hobj.
    change (obj = <["error" := Error job]>
                    (<["status" := "failed"]> {[ "job_id" := ID job ]})) in Hobj.
    subst obj. cbn [fst outcome_of]. rewrite poll_OK. cbv zeta.
    rewrite lookup_insert_ne by done. rewrite lookup_insert_eq.
    rewrite decide_False by done. rewrite bool_decide_eq_false_2 by done.
    cbn [andb]. rewrite decide_True by done. by rewrite lookup_insert_eq.
  - intros job Hget Hst [bytes Hfile]. unfold answer.
    destruct (GetResult_request_found h _ _ _ _ Hne Hget) as (obj & -> & Hobj).
    rewrite Hst in Hobj. unfold os_Stat in Hobj. rewrite Hfile in Hobj.
    change (obj = <["completed_at" := time_Format (UpdatedAt job) time_RFC3339]>
                    (<["result_url" := "/api/download/" +:+ ID job]>
                       (<["status" := "completed"]> {[ "job_id" := ID job ]}))) in Hobj.
    subst obj. cbn [fst outcome_of]. rewrite poll_OK. cbv zeta.
    assert (Hs : (<["completed_at" := time_Format (UpdatedAt job) time_RFC3339]>
                    (<["result_url" := "/api/download/" +:+ ID job]>
                       (<["status" := "completed"]> {[ "job_id" := ID job ]}))
                  : gin_H) !! "status" = Some "completed") by (by simplify_map_eq).
    assert (Hu : (<["completed_at" := time_Format (UpdatedAt job) time_RFC3339]>
                    (<["result_url" := "/api/download/" +:+ ID job]>
                       (<["status" := "completed"]> {[ "job_id" := ID job ]}))
                  : gin_H) !! "result_url" = Some ("/api/download/" +:+ ID job))
      by (by simplify_map_eq).
    rewrite Hs, Hu. rewrite decide_False by done.
    rewrite bool_decide_eq_true_2 by done. reflexivity.
Qed.
End Client.

Section ClientLoop.
Context {V : Type} `{JSON V} `{GoLib}.
Implicit Types (w : World V) (h : Handler) (s : view) (job : Job).

Lemma poll_completed_without_url (data : gin_H) (s : view) :
  data !! "status" = Some "completed" -> data !! "result_url" = None ->
  poll (Answer http_StatusOK data) s = (s, true).
Proof.
  intros Hs Hu. rewrite poll_OK. cbv zeta. rewrite Hs, Hu. cbn [truthy].
  rewrite andb_false_r. by rewrite !decide_False by done.
Qed.

(** X21. A completed job whose output file is gone keeps the client polling:
    [GetResult] answers "completed" without a result URL, which [poll] takes
    neither as success nor as failure, so as long as the record can be read
    every poll leaves the state as it is and schedules the next one. *)
Theorem poll_loop_completed_without_file n h now jobID w s job :
  jobID <> "" -> Status job = StatusCompleted -> disk w !! OutputPath job = None ->
  (forall k : nat, (k < n)%nat ->
     GetJob (now + Z.of_nat k * (POLLING_INTERVAL * time_Millisecond)) jobID (jobQueue w)
     = (Ok (Some job), jobQueue w)) ->
  poll_loop n h now jobID w s = (s, true, w).
Proof.
  intros Hne Hst Hfile. revert now. induction n as [|n IH]; intros now Hget; [reflexivity|].
  cbn [poll_loop].
  assert (Hnow : GetJob now jobID (jobQueue w) = (Ok (Some job), jobQueue w)).
  { specialize (Hget 0%nat ltac:(lia)). by rewrite Z.mul_0_l, Z.add_0_r in Hget. }
  destruct (GetResult_request_found h _ _ _ _ Hne Hnow) as (obj & -> & Hobj).
  rewrite Hst in Hobj. unfold os_Stat in Hobj. rewrite Hfile in Hobj.
  change (obj = <["error" := "Result file not found"]>
                  (<["status" := "completed"]> {[ "job_id" := ID job ]})) in Hobj.
  subst obj. cbn [outcome_of].
  rewrite poll_completed_without_url by (by simplify_map_eq).
  apply IH. intros k Hk. specialize (Hget (S k) ltac:(lia)).
  rewrite <- Hget. f_equal. lia.
Qed.

(** X22. The client's [handleProcess] on the answer of [ProcessImage]: when
    the upload is accepted (the ID made of 8 random bytes) the client keeps
    the job ID of the answer and starts polling for it, in the state
    "processing" with progress 0; when it is refused the client does not
    poll and shows the error text of the server's answer. *)
Theorem handleProcess_ProcessImage h now b c w s code obj w' :
  length b = 8%nat ->
  ProcessImage h now (Ok b) c w = (c_JSON code obj, w') ->
  let s0 := setProgress (fun _ => 0) (setProcessingState "processing" s) in
  (code = http_StatusAccepted ->
   handleProcess (outcome_of (c_JSON code obj)) s
   = (setJobId (hex_EncodeToString b) s0, Some (hex_EncodeToString b)))
  /\ (code <> http_StatusAccepted ->
      exists msg, obj !! "error" = Some msg /\ msg <> ""
        /\ handleProcess (outcome_of (c_JSON code obj)) s
           = (setError msg (setProcessingState "error" s0), None)).
Proof.
  intros Hlen Hproc s0.
  assert (Hid : hex_EncodeToString b <> "").
  { intros E. pose proof (hex_EncodeToString_length b) as Hl. rewrite E, Hlen in Hl.
    discriminate Hl. }
  pose proof (ProcessImage_cases h now (Ok b) c w) as Hc.
  destruct (c_FormFile "image" c) as [file|e].
  - cbn [generateID] in Hc. cbv zeta in Hc.
    destruct (AddJob now _ (jobQueue w)) as [[job'|e] db] eqn:Hadd;
      rewrite Hc in Hproc; injection Hproc as <- <- <-.
    + split; [|intros Hne; by destruct Hne]. intros _.
      unfold handleProcess. cbn [outcome_of].
      rewrite decide_True by (unfold resolved, http_StatusAccepted; lia).
      fold s0. rewrite lookup_insert_ne by done. rewrite lookup_singleton_eq.
      cbn [truthy default]. by rewrite bool_decide_eq_true_2.
    + split; [intros [=]|]. intros _. eexists. split; [apply lookup_singleton_eq|].
      split; [done|]. unfold handleProcess. cbn [outcome_of].
      rewrite decide_False by (unfold resolved, http_StatusInternalServerError; lia).
      by rewrite lookup_singleton_eq.
  - rewrite Hc in Hproc. injection Hproc as <- <- <-.
    split; [intros [=]|]. intros _. eexists. split; [apply lookup_singleton_eq|].
    split; [done|]. unfold handleProcess. cbn [outcome_of].
    rewrite decide_False by (unfold resolved, http_StatusBadRequest; lia).
    by rewrite lookup_singleton_eq.
Qed.
End ClientLoop.

(** * The further properties on concrete stores *)

Import cases.

Example listing_two_jobs :
  fst (GetPendingJobs (13 * time_Hour) db_ab)
  = Ok [added (12 * time_Hour) job_b; added 0 job_a]
  /\ fst (GetPendingJobs day db_ab) = Ok [added (12 * time_Hour) job_b]
  /\ fst (GetPendingJobs time_Hour db_damaged) = Ok [].
Proof. by vm_compute. Qed.

Example lrange_slices :
  fst (redis_LRange queueKey 0 0 db_ab) = Ok ["b"]
  /\ fst (redis_LRange queueKey (-1) (-1) db_ab) = Ok ["a"]
  /\ fst (redis_LRange queueKey 1 5 db_ab) = Ok ["a"]
  /\ fst (redis_LRange queueKey 2 5 db_ab) = Ok [].
Proof. by vm_compute. Qed.

Example routes_of_the_api :
  route "POST" "/api/process" = Handled h_ProcessImage
  /\ route "GET" "/api/result" = Handled h_GetResult
  /\ route "GET" "/api/result/" = RedirectTrailingSlash "/api/result"
  /\ route "GET" "/api/process" = NoRoute
  /\ route "GET" "/api/health" = NoRoute.
Proof. by vm_compute. Qed.

Lemma AddJob_other_status_not_enqueued_witness :
  Status job_archived <> "" /\ Status job_archived <> StatusPending
  /\ exists db' : Redis document,
       AddJob day job_archived db_a = (Ok (added day job_archived), db')
       /\ lists db' = lists db_a.
Proof.
  assert (H1 : Status job_archived <> "") by (by vm_compute).
  assert (H2 : Status job_archived <> StatusPending) by (by vm_compute).
  split; [exact H1|]. split; [exact H2|].
  destruct (AddJob_other_status_not_enqueued day job_archived db_a H1 H2)
    as (db' & Hadd & _ & _ & _ & Hl & _).
  exists db'. by split.
Defined.

Lemma AddJob_twice_enqueues_twice_witness :
  let db2 : Redis document := snd (AddJob time_Hour job_a (snd (AddJob 0 job_a empty_redis))) in
  (Status job_a = "" \/ Status job_a = StatusPending)
  /\ 2 * time_Hour < time_Hour + 24 * time_Hour
  /\ queue_order db2 = queue_order (@empty_redis document) ++ [ID job_a; ID job_a].
Proof.
  intros db2.
  assert (H1 : Status job_a = "" \/ Status job_a = StatusPending) by (right; reflexivity).
  assert (H2 : 2 * time_Hour < time_Hour + 24 * time_Hour) by (by vm_compute).
  split; [exact H1|]. split; [exact H2|].
  exact (proj1 (AddJob_twice_enqueues_twice 0 time_Hour (2 * time_Hour) job_a
                  empty_redis H1 H2)).
Defined.

Lemma UpdateJob_creates_or_overwrites_witness :
  let job := set_UpdatedAt time_Hour job_done in
  unknown time_Hour (ID job_done) (@empty_redis document)
  /\ (exists db' : Redis document,
        UpdateJob time_Hour job_done empty_redis = (Ok job, db')
        /\ pending db' = []
        /\ GetJob (2 * time_Hour) (ID job_done) db' = (Ok (Some job), db')
        /\ GetJob (25 * time_Hour) (ID job_done) db' = (Ok None, db'))
  /\ UpdateJob (H := ranged_json) time_Hour job_year_10000 sample.db_a
     = (Err year_outside_of_range, sample.db_a).
Proof.
  intros job. split; [by vm_compute|]. split.
  - pose proof (UpdateJob_creates_or_overwrites time_Hour job_done (@empty_redis document))
      as Hup.
    cbn [json_Marshal typed_json] in Hup.
    destruct Hup as (db' & Hup & _ & Hl & _ & Hget & Hgone).
    exists db'. split; [exact Hup|]. split; [unfold pending; by rewrite Hl|].
    split; [apply (Hget (2 * time_Hour)); by vm_compute|].
    apply Hgone. by vm_compute.
  - exact (UpdateJob_creates_or_overwrites (H := ranged_json) time_Hour job_year_10000
             sample.db_a).
Defined.

Lemma other_records_untouched_witness :
  written (OpUpdateJob job_a_failed) <> Some "b"
  /\ fst (GetJob (13 * time_Hour) "b" (snd (exec (13 * time_Hour) (OpUpdateJob job_a_failed) db_ab)))
     = fst (GetJob (13 * time_Hour) "b" db_ab).
Proof.
  assert (H1 : written (OpUpdateJob job_a_failed) <> Some "b") by (by vm_compute).
  split; [exact H1|].
  exact (other_records_untouched (13 * time_Hour) (OpUpdateJob job_a_failed) db_ab "b"
           (13 * time_Hour) H1).
Defined.

Lemma PopPendingJob_returns_last_listed_witness :
  (forall jobID, last (pending db_ab) = Some jobID ->
     is_Some (readable (13 * time_Hour) db_ab jobID))
  /\ exists l, fst (GetPendingJobs (13 * time_Hour) db_ab) = Ok l
       /\ fst (PopPendingJob (13 * time_Hour) db_ab) = Ok (last l).
Proof.
  assert (H1 : forall jobID, last (pending db_ab) = Some jobID ->
                 is_Some (readable (13 * time_Hour) db_ab jobID)).
  { intros jobID Hl. vm_compute in Hl. injection Hl as <-. vm_compute. eauto. }
  split; [exact H1|].
  exact (PopPendingJob_returns_last_listed (13 * time_Hour) db_ab H1).
Defined.

Lemma GetPendingJobs_after_AddJob_witness :
  (Status job_b = "" \/ Status job_b = StatusPending)
  /\ (ID job_b ∉ pending db_a)
  /\ 13 * time_Hour < 12 * time_Hour + 24 * time_Hour
  /\ fst (GetPendingJobs (13 * time_Hour) db_a) = Ok [added 0 job_a]
  /\ fst (GetPendingJobs (13 * time_Hour) (snd (AddJob (12 * time_Hour) job_b db_a)))
     = Ok [added (12 * time_Hour) job_b; added 0 job_a].
Proof.
  assert (H1 : Status job_b = "" \/ Status job_b = StatusPending) by (right; reflexivity).
  assert (H2 : ID job_b ∉ pending db_a).
  { vm_compute. by intros [[=]|[]%elem_of_nil]%elem_of_cons. }
  assert (H3 : 13 * time_Hour < 12 * time_Hour + 24 * time_Hour) by (by vm_compute).
  assert (H4 : fst (GetPendingJobs (13 * time_Hour) db_a) = Ok [added 0 job_a])
    by (by vm_compute).
  repeat (split; [assumption|]).
  exact (GetPendingJobs_after_AddJob (12 * time_Hour) job_b db_a (13 * time_Hour)
           [added 0 job_a] H1 H2 H3 H4).
Defined.

Lemma generateID_sixteen_hex_digits_witness :
  length entropy = 8%nat
  /\ generateID (Ok entropy) = Ok "00010203fcfdfeff"
  /\ String.length "00010203fcfdfeff" = 16%nat
  /\ hex_digits_only "00010203fcfdfeff".
Proof.
  assert (H1 : length entropy = 8%nat) by reflexivity.
  assert (H2 : generateID (Ok entropy) = Ok "00010203fcfdfeff") by reflexivity.
  split; [exact H1|]. split; [exact H2|].
  destruct (generateID_sixteen_hex_digits entropy _ H1 H2) as (Hlen & Hdigits & _).
  by split.
Defined.

Lemma generateID_injective_witness :
  generateID (Ok entropy) = generateID (Ok (rev (rev entropy)))
  /\ entropy = rev (rev entropy).
Proof.
  assert (H1 : generateID (Ok entropy) = generateID (Ok (rev (rev entropy))))
    by reflexivity.
  split; [exact H1|]. exact (generateID_injective entropy (rev (rev entropy)) H1).
Defined.

Lemma ProcessImage_refused_witness :
  let w : World document := mkWorld db_a ∅ in
  let obj : gin_H := {[ "error" := "Failed to add job to queue" ]} in
  let w' := snd (ProcessImage_under lpush_not_run h0 day (Ok entropy) upload w) in
  ProcessImage_under lpush_not_run h0 day (Ok entropy) upload w
  = (c_JSON http_StatusInternalServerError obj, w')
  /\ http_StatusInternalServerError <> http_StatusAccepted
  /\ pending (jobQueue w') = pending (jobQueue w)
  /\ is_Some (keys (jobQueue w') !! jobKey "00010203fcfdfeff").
Proof.
  intros w obj w'.
  assert (H1 : ProcessImage_under lpush_not_run h0 day (Ok entropy) upload w
               = (c_JSON http_StatusInternalServerError obj, w'))
    by (vm_compute; reflexivity).
  assert (H2 : http_StatusInternalServerError <> http_StatusAccepted) by (by vm_compute).
  split; [exact H1|]. split; [exact H2|].
  destruct (ProcessImage_refused lpush_not_run h0 day (Ok entropy) upload w
              http_StatusInternalServerError obj w' H1 H2)
    as [(Hfile & _)|[(_ & [e He] & _)|(file & jobID & _ & Hid & _ & Hcase)]];
    [by vm_compute in Hfile|discriminate He|].
  injection Hid as <-.
  destruct Hcase as [(_ & [f Hf] & _)|(_ & _ & _ & Hstore)]; [discriminate Hf|].
  cbn [json_Marshal typed_json] in Hstore.
  destruct Hstore as (_ & Hk & Hp). split; [exact Hp|].
  rewrite Hk. cbn [ran lpush_not_run on_Set]. rewrite lookup_insert_eq. eauto.
Defined.

Lemma ProcessImage_saves_upload_witness :
  let w : World document := mkWorld db_a ∅ in
  let obj : gin_H := <["status" := "pending"]> {[ "job_id" := "00010203fcfdfeff" ]} in
  let w' := snd (ProcessImage h0 day (Ok entropy) upload w) in
  ProcessImage h0 day (Ok entropy) upload w = (c_JSON http_StatusAccepted obj, w')
  /\ disk w' !! "uploads/00010203fcfdfeff.png" = Some "PNG"
  /\ exists v, keys (jobQueue w') !! jobKey "00010203fcfdfeff"
                = Some (Entry v (Some (day + 24 * time_Hour)))
       /\ doc_input_path v = "uploads/00010203fcfdfeff.png".
Proof.
  intros w obj w'.
  assert (H1 : ProcessImage h0 day (Ok entropy) upload w
               = (c_JSON http_StatusAccepted obj, w')) by (vm_compute; reflexivity).
  split; [exact H1|].
  destruct (ProcessImage_saves_upload h0 day (Ok entropy) upload w obj w' H1)
    as (file & jobID & job & v & Hfile & Hid & _ & Hpath & _ & Hdisk & Hm & Hk).
  injection Hid as <-. vm_compute in Hfile. injection Hfile as <-.
  rewrite Hpath in Hdisk. split; [exact Hdisk|].
  exists v. split; [exact Hk|].
  cbn [json_Marshal typed_json] in Hm. injection Hm as <-. exact Hpath.
Defined.

Lemma submit_then_query_witness :
  let w : World document := mkWorld db_a ∅ in
  let obj : gin_H := <["status" := "pending"]> {[ "job_id" := "00010203fcfdfeff" ]} in
  let w' := snd (ProcessImage h0 day (Ok entropy) upload w) in
  length entropy = 8%nat
  /\ ProcessImage h0 day (Ok entropy) upload w = (c_JSON http_StatusAccepted obj, w')
  /\ exists jobID, obj !! "job_id" = Some jobID
       /\ GetResult h0 (day + time_Hour) (result_request jobID) w'
          = (c_JSON http_StatusOK (<["status" := "pending"]> {[ "job_id" := jobID ]}), w').
Proof.
  intros w obj w'.
  assert (H1 : length entropy = 8%nat) by reflexivity.
  assert (H2 : ProcessImage h0 day (Ok entropy) upload w
               = (c_JSON http_StatusAccepted obj, w')) by (vm_compute; reflexivity).
  split; [exact H1|]. split; [exact H2|].
  destruct (submit_then_query h0 day entropy upload w obj w' H1 H2) as (jobID & Hid & Hq).
  exists jobID. split; [exact Hid|].
  apply Hq; [apply c_Query_result_request|by vm_compute].
Defined.

Lemma undecodable_record_is_server_error_witness :
  let w : World (option document) := mkWorld db_damaged ∅ in
  let err := errorString "unexpected end of JSON input" in
  "a" <> "" /\ c_Query "id" query_a = "a" /\ c_Param "id" download_a = "a"
  /\ keys (jobQueue w) !! jobKey "a" = Some (Entry None (Some day))
  /\ live time_Hour (Entry (@None document) (Some day)) = true
  /\ json_Unmarshal (@None document) = Err err
  /\ GetResult h0 time_Hour query_a w
     = (c_JSON http_StatusInternalServerError {[ "error" := "Failed to retrieve job" ]}, w).
Proof.
  intros w err.
  assert (H1 : "a" <> "") by done.
  assert (H2 : c_Query "id" query_a = "a") by (by vm_compute).
  assert (H3 : c_Param "id" download_a = "a") by (by vm_compute).
  assert (H4 : keys (jobQueue w) !! jobKey "a" = Some (Entry None (Some day)))
    by (by vm_compute).
  assert (H5 : live time_Hour (Entry (@None document) (Some day)) = true)
    by (by vm_compute).
  assert (H6 : json_Unmarshal (@None document) = Err err) by reflexivity.
  repeat (split; [assumption|]).
  exact (proj1 (proj2 (undecodable_record_is_server_error h0 time_Hour query_a download_a
                         w "a" _ err H1 H2 H3 H4 H5 H6))).
Defined.

Lemma PopPendingJob_undecodable_head_is_lost_witness :
  let err := errorString "unexpected end of JSON input" in
  queue_order db_damaged = ["a"; "b"]
  /\ keys db_damaged !! jobKey "a" = Some (Entry None (Some day))
  /\ live time_Hour (Entry (@None document) (Some day)) = true
  /\ json_Unmarshal (@None document) = Err err
  /\ exists db', PopPendingJob time_Hour db_damaged = (Err err, db')
       /\ queue_order db' = ["b"] /\ keys db' = keys db_damaged.
Proof.
  intros err.
  assert (H1 : queue_order db_damaged = ["a"; "b"]) by (by vm_compute).
  assert (H2 : keys db_damaged !! jobKey "a" = Some (Entry None (Some day)))
    by (by vm_compute).
  assert (H3 : live time_Hour (Entry (@None document) (Some day)) = true)
    by (by vm_compute).
  assert (H4 : json_Unmarshal (@None document) = Err err) by reflexivity.
  repeat (split; [assumption|]).
  exact (PopPendingJob_undecodable_head_is_lost time_Hour db_damaged "a" ["b"] _ err
           H1 H2 H3 H4).
Defined.

Lemma result_url_has_no_route_witness :
  let obj : gin_H :=
    <["completed_at" := time_Format time_Hour time_RFC3339]>
      (<["result_url" := "/api/download/a"]>
         (<["status" := "completed"]> {[ "job_id" := "a" ]})) in
  GetResult h0 (2 * time_Hour) query_a world_completed = (c_JSON http_StatusOK obj, world_completed)
  /\ obj !! "result_url" = Some "/api/download/a"
  /\ route "GET" "/api/download/a" = NoRoute.
Proof.
  intros obj.
  assert (H1 : GetResult h0 (2 * time_Hour) query_a world_completed
               = (c_JSON http_StatusOK obj, world_completed)) by (vm_compute; reflexivity).
  assert (H2 : obj !! "result_url" = Some "/api/download/a") by (vm_compute; reflexivity).
  split; [exact H1|]. split; [exact H2|].
  exact (proj1 (result_url_has_no_route h0 (2 * time_Hour) query_a world_completed
                  http_StatusOK obj world_completed "/api/download/a" H1 H2 "GET")).
Defined.

Lemma poll_progress_and_outcome_witness :
  let data : gin_H := <["status" := "processing"]> {[ "job_id" := "a" ]} in
  poll (Answer http_StatusOK data) polling_view
  = (setProgress (fun _ => 50) polling_view, true)
  /\ 0 <= progress polling_view <= 80
  /\ 0 <= progress (setProgress (fun _ => 50) polling_view) <= 80.
Proof.
  intros data.
  assert (H1 : poll (Answer http_StatusOK data) polling_view
               = (setProgress (fun _ => 50) polling_view, true)) by (vm_compute; reflexivity).
  assert (H2 : 0 <= progress polling_view <= 80) by (vm_compute; split; discriminate).
  split; [exact H1|]. split; [exact H2|].
  exact (proj1 (proj2 (poll_progress_and_outcome _ _ _ true H1 H2))).
Defined.

Lemma poll_GetResult_terminal_witness :
  let job := set_UpdatedAt time_Hour job_a_failed in
  "a" <> ""
  /\ GetJob (2 * time_Hour) "a" (jobQueue world_failed) = (Ok (Some job), jobQueue world_failed)
  /\ Status job = StatusFailed
  /\ poll (outcome_of (fst (GetResult h0 (2 * time_Hour) (result_request "a") world_failed)))
       polling_view
     = (setError "decode error" (setProcessingState "error" polling_view), false).
Proof.
  intros job.
  assert (H1 : "a" <> "") by done.
  assert (H2 : GetJob (2 * time_Hour) "a" (jobQueue world_failed)
               = (Ok (Some job), jobQueue world_failed)) by (vm_compute; reflexivity).
  assert (H3 : Status job = StatusFailed) by reflexivity.
  split; [exact H1|]. split; [exact H2|]. split; [exact H3|].
  exact (proj1 (proj2 (poll_GetResult_terminal h0 (2 * time_Hour) "a" world_failed
                         polling_view H1)) job H2 H3).
Defined.

Lemma poll_loop_completed_without_file_witness :
  let job := set_UpdatedAt time_Hour job_a_completed in
  "a" <> "" /\ Status job = StatusCompleted
  /\ disk world_completed_no_file !! OutputPath job = None
  /\ poll_loop 3 h0 (2 * time_Hour) "a" world_completed_no_file polling_view
     = (polling_view, true, world_completed_no_file).
Proof.
  intros job.
  assert (H1 : "a" <> "") by done.
  assert (H2 : Status job = StatusCompleted) by reflexivity.
  assert (H3 : disk world_completed_no_file !! OutputPath job = None) by reflexivity.
  assert (H4 : forall k : nat, (k < 3)%nat ->
            GetJob (2 * time_Hour + Z.of_nat k * (POLLING_INTERVAL * time_Millisecond)) "a"
              (jobQueue world_completed_no_file)
            = (Ok (Some job), jobQueue world_completed_no_file)).
  { intros [|[|[|k]]] Hk; [vm_compute; reflexivity..|lia]. }
  split; [exact H1|]. split; [exact H2|]. split; [exact H3|].
  exact (poll_loop_completed_without_file 3 h0 (2 * time_Hour) "a" world_completed_no_file
           polling_view job H1 H2 H3 H4).
Defined.

Lemma handleProcess_ProcessImage_witness :
  let w : World document := mkWorld db_a ∅ in
  let obj : gin_H := <["status" := "pending"]> {[ "job_id" := "00010203fcfdfeff" ]} in
  let w' := snd (ProcessImage h0 day (Ok entropy) upload w) in
  length entropy = 8%nat
  /\ ProcessImage h0 day (Ok entropy) upload w = (c_JSON http_StatusAccepted obj, w')
  /\ handleProcess (outcome_of (c_JSON http_StatusAccepted obj)) idle_view
     = (mkView "processing" 0 (Some "00010203fcfdfeff") None None,
        Some "00010203fcfdfeff").
Proof.
  intros w obj w'.
  assert (H1 : length entropy = 8%nat) by reflexivity.
  assert (H2 : ProcessImage h0 day (Ok entropy) upload w
               = (c_JSON http_StatusAccepted obj, w')) by (vm_compute; reflexivity).
  split; [exact H1|]. split; [exact H2|].
  exact (proj1 (handleProcess_ProcessImage h0 day entropy upload w idle_view
                  http_StatusAccepted obj w' H1 H2) eq_refl).
Defined.
